(** * nimsforestdocker: compose serializer and docker-compose provider

    A shallow embedding of [dockerwrapper.go] (the topology data model),
    [compose_generator.go] (the serializer and its staging step) and the
    [DockerComposeProvider] (the stateful provider that shells out to
    [docker-compose] and [docker]).

    Go maps are finite maps ([gmap]); the order in which [range] walks a
    map is chosen by the Go runtime, so it is an event answered by the
    environment, like the result of a subprocess or of a file-system
    call.  Programs are trees of such events; a run is a program together
    with the answers the environment gave. *)

From stdpp Require Import base strings list gmap fin_maps sorting pretty.

Open Scope string_scope.
Open Scope list_scope.

(** ** Text helpers *)

(** The newline and double-quote bytes of the Go string literals. *)
Definition nl : string := String (Ascii.ascii_of_nat 10) EmptyString.
Definition dq : string := String (Ascii.ascii_of_nat 34) EmptyString.

(** [%d] applied to a Go [int]: the decimal digits, with a leading minus
    sign below zero.  A Go [int] is a 64-bit integer; the model takes
    any integer. *)
Definition fmt_d (n : Z) : string := pretty n.

(** ** dockerwrapper.go: the topology data model *)

Record PortMapping := {
  HostPort : Z;
  ContainerPort : Z;
  Protocol : string
}.

Record VolumeMapping := {
  HostPath : string;
  ContainerPath : string
}.

Record ResourceLimits := {
  Memory : string;
  CPUShare : string
}.

Record ServiceConfig := {
  ImageName : string;
  ImageTag : string;
  ExposedPorts : list PortMapping;
  Environment : gmap string string;
  Volumes : list VolumeMapping;
  DependsOn : list string;
  RestartPolicy : string;
  Resources : ResourceLimits
}.

Record ComposeConfig := {
  Services : gmap string ServiceConfig;
  Network : string;
  ProjectName : string;
  EnvFile : string
}.

(** A Go [error] value is represented by its message; [nil] is [None]. *)
Definition error := string.

(** ** Sample data

    [strings.TrimSpace] and [filepath.Join] belong to the Go standard
    library and are parameters of the development.  To evaluate examples
    they are instantiated by the two functions below, which agree with
    them on ASCII text and on two clean, non-empty path elements. *)
Fixpoint trimLeftASCII (s : string) : string :=
  match s with
  | String a s' => if Ascii.is_space a then trimLeftASCII s' else s
  | EmptyString => EmptyString
  end.

Definition trimSpaceASCII (s : string) : string :=
  String.rev (trimLeftASCII (String.rev (trimLeftASCII s))).

Definition joinUnix (dir file : string) : string := dir +:+ "/" +:+ file.

(** A service with an image, one port mapping and one variable. *)
Definition webService : ServiceConfig :=
  {| ImageName := "nginx"; ImageTag := "stable";
     ExposedPorts :=
       [ {| HostPort := 8080; ContainerPort := 80; Protocol := "tcp" |} ];
     Environment := {[ "ENV" := "production" ]};
     Volumes := []; DependsOn := []; RestartPolicy := "";
     Resources := {| Memory := ""; CPUShare := "" |} |}.

(** A service with an image and a restart policy only. *)
Definition dbService : ServiceConfig :=
  {| ImageName := "postgres"; ImageTag := "13";
     ExposedPorts := []; Environment := ∅;
     Volumes := []; DependsOn := []; RestartPolicy := "always";
     Resources := {| Memory := ""; CPUShare := "" |} |}.

(** A service with every optional block. *)
Definition cacheService : ServiceConfig :=
  {| ImageName := "redis"; ImageTag := "7";
     ExposedPorts :=
       [ {| HostPort := 6379; ContainerPort := 6379; Protocol := "tcp" |} ];
     Environment := {[ "MODE" := "lru"; "LOG" := "quiet" ]};
     Volumes := [ {| HostPath := "/var/cache"; ContainerPath := "/data" |} ];
     DependsOn := ["db"]; RestartPolicy := "always";
     Resources := {| Memory := "512m"; CPUShare := "0.5" |} |}.

Definition demoConfig : ComposeConfig :=
  {| Services :=
       {[ "web" := webService; "db" := dbService; "cache" := cacheService ]};
     Network := "appnet"; ProjectName := "demo"; EnvFile := "" |}.

(** A topology with one service that has one variable. *)
Definition webConfig : ComposeConfig :=
  {| Services := {[ "web" := webService ]};
     Network := ""; ProjectName := "site"; EnvFile := ".env" |}.

Definition otherConfig : ComposeConfig :=
  {| Services := {[ "queue" := dbService ]};
     Network := ""; ProjectName := "other"; EnvFile := "" |}.

Section Provider.

(** [context.Context] is only ever handed on to [exec.CommandContext]. *)
Variable context_Context : Type.

(** [strings.TrimSpace] of the Go standard library. *)
Variable strings_TrimSpace : string → string.

(** [filepath.Join] of the Go standard library. *)
Variable filepath_Join : string → string → string.

(** ** Events: what the program asks of its environment *)

(** [exec.CommandContext(ctx, name, args...)] *)
Record Cmd := {
  cmd_ctx : context_Context;
  cmd_name : string;
  cmd_args : list string
}.

Inductive Event : Type :=
  | RangeServices (m : gmap string ServiceConfig)
  | RangeEnvironment (m : gmap string string)
  | CombinedOutput (c : Cmd)
  | TempDir (dir pattern : string)
  | WriteFile (filename data : string) (perm : N).

Definition Answer (e : Event) : Type :=
  match e with
  | RangeServices _ => list (string * ServiceConfig)
  | RangeEnvironment _ => list (string * string)
  | CombinedOutput _ => string * option error
  | TempDir _ _ => string * option error
  | WriteFile _ _ _ => option error
  end.

(** The answers the environment may give: [range] visits every entry of
    the map exactly once, in any order; I/O may answer anything. *)
Definition admissible (e : Event) : Answer e → Prop :=
  match e with
  | RangeServices m => λ l, l ≡ₚ map_to_list m
  | RangeEnvironment m => λ l, l ≡ₚ map_to_list m
  | _ => λ _, True
  end.

(** Only subprocesses and the file system are I/O. *)
Definition is_io (e : Event) : bool :=
  match e with
  | RangeServices _ | RangeEnvironment _ => false
  | _ => true
  end.

(** One entry of the record of a run: the event and its answer. *)
Inductive Obs : Type :=
  | ObsRangeServices (m : gmap string ServiceConfig)
      (l : list (string * ServiceConfig))
  | ObsRangeEnvironment (m : gmap string string) (l : list (string * string))
  | ObsCombinedOutput (c : Cmd) (r : string * option error)
  | ObsTempDir (dir pattern : string) (r : string * option error)
  | ObsWriteFile (filename data : string) (perm : N) (r : option error).

Definition observe (e : Event) : Answer e → Obs :=
  match e with
  | RangeServices m => ObsRangeServices m
  | RangeEnvironment m => ObsRangeEnvironment m
  | CombinedOutput c => ObsCombinedOutput c
  | TempDir d p => ObsTempDir d p
  | WriteFile f d p => ObsWriteFile f d p
  end.

Definition obs_is_io (o : Obs) : bool :=
  match o with
  | ObsRangeServices _ _ | ObsRangeEnvironment _ _ => false
  | _ => true
  end.

(** ** Programs *)

Inductive IO (A : Type) : Type :=
  | Ret (a : A)
  | Vis (e : Event) (k : Answer e → IO A).
Arguments Ret {A} a.
Arguments Vis {A} e k.

Fixpoint bind {A B} (m : IO A) (f : A → IO B) : IO B :=
  match m with
  | Ret a => f a
  | Vis e k => Vis e (λ x, bind (k x) f)
  end.

Notation "x <- m ;; k" := (bind m (λ x, k))
  (at level 100, m at next level, right associativity, only parsing).

Definition trigger (e : Event) : IO (Answer e) := Vis e Ret.

(** [for _, x := range l { s = body s x }] over a slice, or over the
    entries a map [range] produced. *)
Fixpoint forEach {A S} (l : list A) (body : S → A → IO S) (s : S) : IO S :=
  match l with
  | [] => Ret s
  | x :: l' => s' <- body s x;; forEach l' body s'
  end.

(** [runs p tr a]: the program [p] can run to the result [a], asking the
    events recorded in [tr] and getting the answers recorded there. *)
Fixpoint runs {A} (p : IO A) (tr : list Obs) (a : A) : Prop :=
  match p with
  | Ret x => tr = [] ∧ a = x
  | Vis e k =>
      ∃ (ans : Answer e) (tr' : list Obs),
        admissible e ans ∧ tr = observe e ans :: tr' ∧ runs (k ans) tr' a
  end.

(** An executable environment: a handler with its own state answers each
    event in turn. *)
Fixpoint exec {W A} (h : W → ∀ e, Answer e * W) (w : W) (p : IO A)
    : A * list Obs :=
  match p with
  | Ret x => (x, [])
  | Vis e k =>
      let '(ans, w') := h w e in
      let '(a, tr) := exec h w' (k ans) in
      (a, observe e ans :: tr)
  end.

(** Programs that ask for no I/O, only for the order of a [range]. *)
Fixpoint no_io {A} (p : IO A) : Prop :=
  match p with
  | Ret _ => True
  | Vis e k => is_io e = false ∧ ∀ ans, no_io (k ans)
  end.

(** Every [range] recorded in the run walked the keys in [R]-order. *)
Definition obs_sorted (R : relation string) (o : Obs) : Prop :=
  match o with
  | ObsRangeServices _ l => Sorted R l.*1
  | ObsRangeEnvironment _ l => Sorted R l.*1
  | _ => True
  end.

(** ** compose_generator.go: the serializer *)

(** The body of [for serviceName, serviceConfig := range config.Services];
    [sb] is the [strings.Builder]. *)
Definition writeService (sb : string) (serviceName : string)
    (serviceConfig : ServiceConfig) : IO string :=
  (* "  %s:\n" *)
  let sb := sb +:+ ("  " +:+ serviceName +:+ ":" +:+ nl) in
  (* "    image: %s:%s\n" *)
  let sb := sb +:+ ("    image: " +:+ ImageName serviceConfig +:+ ":"
                     +:+ ImageTag serviceConfig +:+ nl) in
  let sb :=
    if decide (RestartPolicy serviceConfig ≠ "")
    then sb +:+ ("    restart: " +:+ RestartPolicy serviceConfig +:+ nl)
    else sb in
  sb <-
    (if decide (0 < length (ExposedPorts serviceConfig))
     then
       forEach (ExposedPorts serviceConfig)
         (λ sb port,
            (* "      - \"%d:%d/%s\"\n" *)
            Ret (sb +:+ ("      - " +:+ dq +:+ fmt_d (HostPort port) +:+ ":"
                          +:+ fmt_d (ContainerPort port) +:+ "/"
                          +:+ Protocol port +:+ dq +:+ nl)))
         (sb +:+ ("    ports:" +:+ nl))
     else Ret sb);;
  sb <-
    (if decide (0 < length (Volumes serviceConfig))
     then
       forEach (Volumes serviceConfig)
         (λ sb volume,
            (* "      - %s:%s\n" *)
            Ret (sb +:+ ("      - " +:+ HostPath volume +:+ ":"
                          +:+ ContainerPath volume +:+ nl)))
         (sb +:+ ("    volumes:" +:+ nl))
     else Ret sb);;
  sb <-
    (if decide (0 < size (Environment serviceConfig))
     then
       env <- trigger (RangeEnvironment (Environment serviceConfig));;
       forEach env
         (λ sb '(key, value),
            (* "      - %s=%s\n" *)
            Ret (sb +:+ ("      - " +:+ key +:+ "=" +:+ value +:+ nl)))
         (sb +:+ ("    environment:" +:+ nl))
     else Ret sb);;
  sb <-
    (if decide (0 < length (DependsOn serviceConfig))
     then
       forEach (DependsOn serviceConfig)
         (λ sb dep,
            (* "      - %s\n" *)
            Ret (sb +:+ ("      - " +:+ dep +:+ nl)))
         (sb +:+ ("    depends_on:" +:+ nl))
     else Ret sb);;
  let sb :=
    if decide (Memory (Resources serviceConfig) ≠ ""
               ∨ CPUShare (Resources serviceConfig) ≠ "")
    then
      let sb := sb +:+ ("    deploy:" +:+ nl) in
      let sb := sb +:+ ("      resources:" +:+ nl) in
      let sb := sb +:+ ("        limits:" +:+ nl) in
      let sb :=
        if decide (Memory (Resources serviceConfig) ≠ "")
        then sb +:+ ("          memory: "
                      +:+ Memory (Resources serviceConfig) +:+ nl)
        else sb in
      if decide (CPUShare (Resources serviceConfig) ≠ "")
      then sb +:+ ("          cpus: "
                    +:+ CPUShare (Resources serviceConfig) +:+ nl)
      else sb
    else sb in
  Ret sb.

(** The trailing [networks] section. *)
Definition writeNetworks (sb : string) (config : ComposeConfig) : string :=
  if decide (Network config ≠ "")
  then
    let sb := sb +:+ (nl +:+ "networks:" +:+ nl) in
    (* "  %s:\n" *)
    let sb := sb +:+ ("  " +:+ Network config +:+ ":" +:+ nl) in
    sb +:+ ("    driver: bridge" +:+ nl)
  else sb.

(** What the builder holds when the loop over the services starts. *)
Definition composeHeader : string :=
  let sb := "" in
  let sb := sb +:+ ("version: " +:+ dq +:+ "3.4" +:+ dq +:+ nl +:+ nl) in
  sb +:+ ("services:" +:+ nl).

(** The loop over the services, in the order [range] produced. *)
Definition writeServices (services : list (string * ServiceConfig))
    (sb : string) : IO string :=
  forEach services
    (λ sb '(serviceName, serviceConfig),
       writeService sb serviceName serviceConfig)
    sb.

Definition generateComposeContent (config : ComposeConfig)
    : IO (string * option error) :=
  let sb := composeHeader in
  services <- trigger (RangeServices (Services config));;
  sb <- writeServices services sb;;
  let sb := writeNetworks sb config in
  Ret (sb, None).

(** The text of a [networks] section naming [name]. *)
Definition networksBlock (name : string) : string :=
  nl +:+ "networks:" +:+ nl +:+ "  " +:+ name +:+ ":" +:+ nl
  +:+ "    driver: bridge" +:+ nl.

(** The text of a service that has an image and at most a restart
    policy. *)
Definition imageAndRestart (serviceName : string)
    (serviceConfig : ServiceConfig) : string :=
  "  " +:+ serviceName +:+ ":" +:+ nl
  +:+ "    image: " +:+ ImageName serviceConfig +:+ ":"
  +:+ ImageTag serviceConfig +:+ nl
  +:+ (if decide (RestartPolicy serviceConfig ≠ "")
       then "    restart: " +:+ RestartPolicy serviceConfig +:+ nl
       else "").

(** [ioutil.TempDir], the content, [filepath.Join], [ioutil.WriteFile]
    with mode 0644. *)
Definition generateComposeFile (config : ComposeConfig)
    : IO (string * option error) :=
  r <- trigger (TempDir "" "docker-compose-");;
  let '(tempDir, err) := r in
  match err with
  | Some err => Ret ("", Some ("failed to create temp directory: " +:+ err))
  | None =>
      r <- generateComposeContent config;;
      let '(content, err) := r in
      match err with
      | Some err =>
          Ret ("", Some ("failed to generate compose content: " +:+ err))
      | None =>
          let composeFilePath := filepath_Join tempDir "docker-compose.yml" in
          err <- trigger (WriteFile composeFilePath content 420);;
          match err with
          | Some err =>
              Ret ("", Some ("failed to write compose file: " +:+ err))
          | None => Ret (composeFilePath, None)
          end
      end
  end.

(** ** The provider *)

Record DockerComposeProvider := {
  config : ComposeConfig;
  initialized : bool;
  containers : gmap string string
}.

(** The zero value of [ComposeConfig]; a nil map reads as the empty map. *)
Definition zeroComposeConfig : ComposeConfig :=
  {| Services := ∅; Network := ""; ProjectName := ""; EnvFile := "" |}.

Definition NewDockerComposeProvider : DockerComposeProvider :=
  {| config := zeroComposeConfig; initialized := false; containers := ∅ |}.

(** [p.containers = c] *)
Definition set_containers (p : DockerComposeProvider)
    (c : gmap string string) : DockerComposeProvider :=
  {| config := config p; initialized := initialized p; containers := c |}.

(** Every method takes the provider and returns it with its result: the
    receiver is a pointer and the method may assign its fields.  The
    read/write lock protects single field accesses; one call at a time is
    modelled, so taking and releasing it leaves no trace. *)
Definition Initialize (ctx : context_Context) (config0 : ComposeConfig)
    (p : DockerComposeProvider) : IO (option error * DockerComposeProvider) :=
  Ret (None, {| config := config0; initialized := true;
                containers := containers p |}).

(** The body of the loop of [updateContainerIDs]. *)
Definition queryContainerID (ctx : context_Context) (config : ComposeConfig)
    (containers : gmap string string) (service : string)
    : IO (gmap string string) :=
  r <- trigger (CombinedOutput
         {| cmd_ctx := ctx; cmd_name := "docker-compose";
            cmd_args := ["-p"; ProjectName config; "ps"; "-q"; service] |});;
  let '(output, err) := r in
  match err with
  | Some _ => Ret containers
  | None =>
      let containerID := strings_TrimSpace output in
      if decide (containerID ≠ "")
      then Ret (<[service := containerID]> containers)
      else Ret containers
  end.

Definition updateContainerIDs (ctx : context_Context) (p : DockerComposeProvider)
    : IO (option error * DockerComposeProvider) :=
  let config := config p in
  let containers : gmap string string := ∅ in
  services <- trigger (RangeServices (Services config));;
  containers <- forEach services.*1 (queryContainerID ctx config) containers;;
  Ret (None, set_containers p containers).

Definition Start (ctx : context_Context) (p : DockerComposeProvider)
    : IO (option error * DockerComposeProvider) :=
  if negb (initialized p)
  then Ret (Some "provider not initialized", p)
  else
    let config := config p in
    r <- generateComposeFile config;;
    let '(composeFile, err) := r in
    match err with
    | Some err => Ret (Some ("failed to generate compose file: " +:+ err), p)
    | None =>
        r <- trigger (CombinedOutput
               {| cmd_ctx := ctx; cmd_name := "docker-compose";
                  cmd_args := ["-p"; ProjectName config; "-f"; composeFile;
                               "up"; "-d"] |});;
        let '(output, err) := r in
        match err with
        | Some err =>
            Ret (Some ("failed to start containers: " +:+ output
                        +:+ ", error: " +:+ err), p)
        | None => updateContainerIDs ctx p
        end
    end.

Definition Stop (ctx : context_Context) (p : DockerComposeProvider)
    : IO (option error * DockerComposeProvider) :=
  if negb (initialized p)
  then Ret (Some "provider not initialized", p)
  else
    let config := config p in
    r <- generateComposeFile config;;
    let '(composeFile, err) := r in
    match err with
    | Some err => Ret (Some ("failed to generate compose file: " +:+ err), p)
    | None =>
        r <- trigger (CombinedOutput
               {| cmd_ctx := ctx; cmd_name := "docker-compose";
                  cmd_args := ["-p"; ProjectName config; "-f"; composeFile;
                               "down"] |});;
        let '(output, err) := r in
        match err with
        | Some err =>
            Ret (Some ("failed to stop containers: " +:+ output
                        +:+ ", error: " +:+ err), p)
        | None => Ret (None, set_containers p ∅)
        end
    end.

(** [docker inspect --format {{.State.Status}} containerID] *)
Definition inspectCmd (ctx : context_Context) (containerID : string) : Cmd :=
  {| cmd_ctx := ctx; cmd_name := "docker";
     cmd_args := ["inspect"; "--format"; "{{.State.Status}}"; containerID] |}.

(** The body of the loop of [Status]; [cache] is [p.containers]. *)
Definition inspectService (ctx : context_Context) (cache : gmap string string)
    (statuses : gmap string string) (service : string)
    : IO (gmap string string) :=
  match cache !! service with
  | None => Ret (<[service := "not_found"]> statuses)
  | Some containerID =>
      r <- trigger (CombinedOutput (inspectCmd ctx containerID));;
      let '(output, err) := r in
      match err with
      | Some _ => Ret (<[service := "error"]> statuses)
      | None =>
          let status := strings_TrimSpace output in
          Ret (<[service := status]> statuses)
      end
  end.

(** The returned map is [None] for Go's nil map. *)
Definition Status (ctx : context_Context) (p : DockerComposeProvider)
    : IO ((option (gmap string string) * option error)
          * DockerComposeProvider) :=
  if negb (initialized p)
  then Ret ((None, Some "provider not initialized"), p)
  else
    let config := config p in
    r <- updateContainerIDs ctx p;;
    let '(err, p) := r in
    match err with
    | Some err => Ret ((None, Some err), p)
    | None =>
        let statuses : gmap string string := ∅ in
        services <- trigger (RangeServices (Services config));;
        statuses <- forEach services.*1 (inspectService ctx (containers p))
                      statuses;;
        Ret ((Some statuses, None), p)
    end.

(** The returned reader is the byte string it reads, [None] for nil. *)
Definition GetLogs (ctx : context_Context) (serviceName : string)
    (p : DockerComposeProvider)
    : IO ((option string * option error) * DockerComposeProvider) :=
  if negb (initialized p)
  then Ret ((None, Some "provider not initialized"), p)
  else
    let config := config p in
    match Services config !! serviceName with
    | None =>
        Ret ((None, Some ("service " +:+ serviceName +:+ " not found")), p)
    | Some _ =>
        r <- updateContainerIDs ctx p;;
        let '(err, p) := r in
        match err with
        | Some err => Ret ((None, Some err), p)
        | None =>
            match containers p !! serviceName with
            | None =>
                Ret ((None, Some ("container for service " +:+ serviceName
                                   +:+ " not found")), p)
            | Some containerID =>
                r <- trigger (CombinedOutput
                       {| cmd_ctx := ctx; cmd_name := "docker";
                          cmd_args := ["logs"; containerID] |});;
                let '(output, err) := r in
                match err with
                | Some err =>
                    Ret ((None, Some ("failed to get logs: " +:+ err)), p)
                | None => Ret ((Some output, None), p)
                end
            end
        end
    end.

(** [p.containers[serviceName]]: the zero value when the key is absent. *)
Definition GetContainerID (serviceName : string) (p : DockerComposeProvider)
    : IO (string * DockerComposeProvider) :=
  Ret (default "" (containers p !! serviceName), p).

(** The returned slice is [None] for Go's nil slice. *)
Definition GetServices (p : DockerComposeProvider)
    : IO (option (list string) * DockerComposeProvider) :=
  if negb (initialized p)
  then Ret (None, p)
  else
    let services : list string := [] in
    entries <- trigger (RangeServices (Services (config p)));;
    services <- forEach entries.*1
                  (λ services service, Ret (services ++ [service]))
                  services;;
    Ret (Some services, p).

(** ** The [DockerProvider] interface, one call at a time *)

Inductive Op : Type :=
  | OpStart
  | OpStop
  | OpStatus
  | OpGetLogs (serviceName : string)
  | OpGetServices.

(** What a call hands back, by signature. *)
Inductive Result : Type :=
  | RError (err : option error)
  | RStatus (statuses : option (gmap string string)) (err : option error)
  | RLogs (reader : option string) (err : option error)
  | RServices (services : option (list string)).

(** The [error] a call returned; [GetServices] has no error result. *)
Definition result_error (r : Result) : option error :=
  match r with
  | RError err => err
  | RStatus _ err => err
  | RLogs _ err => err
  | RServices _ => None
  end.

Definition call (ctx : context_Context) (op : Op) (p : DockerComposeProvider)
    : IO (Result * DockerComposeProvider) :=
  match op with
  | OpStart => r <- Start ctx p;; Ret (RError r.1, r.2)
  | OpStop => r <- Stop ctx p;; Ret (RError r.1, r.2)
  | OpStatus => r <- Status ctx p;; Ret (RStatus r.1.1 r.1.2, r.2)
  | OpGetLogs serviceName =>
      r <- GetLogs ctx serviceName p;; Ret (RLogs r.1.1 r.1.2, r.2)
  | OpGetServices => r <- GetServices p;; Ret (RServices r.1, r.2)
  end.

(** ** Reading a run of [Status] *)

(** The status of one service, from its own entry in the refreshed cache
    and the answer [reply] to its own [docker inspect]. *)
Definition serviceStatus (cache : gmap string string)
    (reply : string * option error) (service : string) : string :=
  match cache !! service with
  | None => "not_found"
  | Some _ =>
      match reply.2 with
      | Some _ => "error"
      | None => strings_TrimSpace reply.1
      end
  end.

(** The [docker inspect] calls of a run of the loop over [services], when
    [reply] maps each service to the answer to its own call. *)
Definition inspections (ctx : context_Context) (cache : gmap string string)
    (reply : string → string * option error) (services : list string)
    : list Obs :=
  flat_map
    (λ service,
       match cache !! service with
       | None => []
       | Some containerID =>
           [ObsCombinedOutput (inspectCmd ctx containerID) (reply service)]
       end)
    services.

(** ** A scripted environment

    [range] walks the keys in the order of [R]; each subprocess takes the
    next answer of the script; the file system always succeeds. *)
Definition entriesBy {V} (R : relation string) `{!RelDecision R}
    (m : gmap string V) : list (string * V) :=
  merge_sort (H:=λ x y, decide_rel R x.1 y.1) (λ x y, R x.1 y.1)
    (map_to_list m).

Definition scripted (R : relation string) `{!RelDecision R}
    (script : list (string * option error)) (e : Event)
    : Answer e * list (string * option error) :=
  match e return Answer e * list (string * option error) with
  | RangeServices m => (entriesBy R m, script)
  | RangeEnvironment m => (entriesBy R m, script)
  | CombinedOutput _ => (hd ("", None) script, tl script)
  | TempDir _ _ => (("/tmp/docker-compose-1", None), script)
  | WriteFile _ _ _ => (None, script)
  end.

(** A provider initialized with [demoConfig] that holds identifiers. *)
Definition demoProvider : DockerComposeProvider :=
  {| config := demoConfig; initialized := true;
     containers := {[ "web" := "c0ffee"; "db" := "decaf" ]} |}.

(** The subprocess answers of one run of [Status] on [demoProvider]: the
    refresh finds no container for "cache" and one each for "db" and
    "web"; the inspection of "db" fails and that of "web" reports
    running. *)
Definition statusScript : list (string * option error) :=
  [ ("", Some "exit status 1"); ("decaf" +:+ nl, None);
    ("c0ffee" +:+ nl, None);
    ("", Some "exit status 1"); ("running" +:+ nl, None) ].

(** ** Reading the text of a service

    The text the loop body adds for one service, written as a
    concatenation of its blocks; [env] is the order in which [range]
    walked the environment of the service. *)
Definition joinLines {A} (line : A → string) (l : list A) : string :=
  foldr (λ x text, line x +:+ text) "" l.

Definition portLine (port : PortMapping) : string :=
  "      - " +:+ dq +:+ fmt_d (HostPort port) +:+ ":"
  +:+ fmt_d (ContainerPort port) +:+ "/" +:+ Protocol port +:+ dq +:+ nl.

Definition volumeLine (volume : VolumeMapping) : string :=
  "      - " +:+ HostPath volume +:+ ":" +:+ ContainerPath volume +:+ nl.

Definition environmentLine (entry : string * string) : string :=
  "      - " +:+ entry.1 +:+ "=" +:+ entry.2 +:+ nl.

Definition dependencyLine (dep : string) : string :=
  "      - " +:+ dep +:+ nl.

(** A block is its title line and one line for each element, or nothing
    at all when there is no element. *)
Definition titledBlock {A} (title : string) (line : A → string)
    (l : list A) : string :=
  match l with
  | [] => ""
  | _ :: _ => title +:+ nl +:+ joinLines line l
  end.

Definition deployBlock (limits : ResourceLimits) : string :=
  if decide (Memory limits ≠ "" ∨ CPUShare limits ≠ "")
  then
    "    deploy:" +:+ nl +:+ "      resources:" +:+ nl
    +:+ "        limits:" +:+ nl
    +:+ (if decide (Memory limits ≠ "")
         then "          memory: " +:+ Memory limits +:+ nl else "")
    +:+ (if decide (CPUShare limits ≠ "")
         then "          cpus: " +:+ CPUShare limits +:+ nl else "")
  else "".

Definition serviceText (serviceName : string) (serviceConfig : ServiceConfig)
    (env : list (string * string)) : string :=
  imageAndRestart serviceName serviceConfig
  +:+ titledBlock "    ports:" portLine (ExposedPorts serviceConfig)
  +:+ titledBlock "    volumes:" volumeLine (Volumes serviceConfig)
  +:+ titledBlock "    environment:" environmentLine env
  +:+ titledBlock "    depends_on:" dependencyLine (DependsOn serviceConfig)
  +:+ deployBlock (Resources serviceConfig).

(** One walk over a topology: the services in the order [range] produced
    them, each with the order in which its environment was walked. *)
Definition Walk : Type := list (string * ServiceConfig * list (string * string)).

Definition walks (config : ComposeConfig) (walk : Walk) : Prop :=
  walk.*1 ≡ₚ map_to_list (Services config) ∧
  Forall (λ step, step.2 ≡ₚ map_to_list (Environment step.1.2)) walk.

Definition servicesText (walk : Walk) : string :=
  joinLines (λ step, serviceText step.1.1 step.1.2 step.2) walk.

Definition networksText (config : ComposeConfig) : string :=
  if decide (Network config ≠ "")
  then networksBlock (Network config) else "".

Definition documentText (config : ComposeConfig) (walk : Walk) : string :=
  composeHeader +:+ servicesText walk +:+ networksText config.

(** The questions a walk answers after the one about the services: one
    about the environment of each service that has one. *)
Definition walkTrace (walk : Walk) : list Obs :=
  flat_map
    (λ step,
       if decide (0 < size (Environment step.1.2))
       then [ObsRangeEnvironment (Environment step.1.2) step.2]
       else [])
    walk.

(** ** Reading the runs of the provider *)

(** The subprocesses of the provider. *)
Definition upCmd (ctx : context_Context) (config : ComposeConfig)
    (composeFile : string) : Cmd :=
  {| cmd_ctx := ctx; cmd_name := "docker-compose";
     cmd_args := ["-p"; ProjectName config; "-f"; composeFile; "up"; "-d"] |}.

Definition downCmd (ctx : context_Context) (config : ComposeConfig)
    (composeFile : string) : Cmd :=
  {| cmd_ctx := ctx; cmd_name := "docker-compose";
     cmd_args := ["-p"; ProjectName config; "-f"; composeFile; "down"] |}.

Definition psCmd (ctx : context_Context) (config : ComposeConfig)
    (service : string) : Cmd :=
  {| cmd_ctx := ctx; cmd_name := "docker-compose";
     cmd_args := ["-p"; ProjectName config; "ps"; "-q"; service] |}.

Definition logsCmd (ctx : context_Context) (containerID : string) : Cmd :=
  {| cmd_ctx := ctx; cmd_name := "docker"; cmd_args := ["logs"; containerID] |}.

(** What staging asks when the directory could be made: the directory,
    the walk over the topology, and the file with the text of that walk,
    written with mode 0644 and answered by [written]. *)
Definition stageTrace (config : ComposeConfig) (tempDir : string)
    (walk : Walk) (written : option error) : list Obs :=
  ObsTempDir "" "docker-compose-" (tempDir, None)
  :: ObsRangeServices (Services config) walk.*1
  :: walkTrace walk
  ++ [ObsWriteFile (filepath_Join tempDir "docker-compose.yml")
        (documentText config walk) 420 written].

(** The identifier the refresh keeps for a service, from the answer to
    the query for that service. *)
Definition refreshedEntry (reply : string * option error) : option string :=
  match reply.2 with
  | Some _ => None
  | None =>
      if decide (strings_TrimSpace reply.1 ≠ "")
      then Some (strings_TrimSpace reply.1)
      else None
  end.

(** The queries of a refresh over [services], when [reply] maps each
    service to the answer to its own query. *)
Definition queries (ctx : context_Context) (config : ComposeConfig)
    (reply : string → string * option error) (services : list string)
    : list Obs :=
  (λ service, ObsCombinedOutput (psCmd ctx config service) (reply service))
  <$> services.

(** No cached identifier is the empty string. *)
Definition cache_nonempty (p : DockerComposeProvider) : Prop :=
  ∀ service containerID,
    containers p !! service = Some containerID → containerID ≠ "".

(** The states a provider can be in: as created, and after any call of
    any method on a state it can be in, whatever the environment
    answers. *)
Inductive reachable : DockerComposeProvider → Prop :=
  | reachable_new : reachable NewDockerComposeProvider
  | reachable_Initialize ctx config0 p tr r p' :
      reachable p →
      runs (Initialize ctx config0 p) tr (r, p') →
      reachable p'
  | reachable_GetContainerID serviceName p tr r p' :
      reachable p →
      runs (GetContainerID serviceName p) tr (r, p') →
      reachable p'
  | reachable_call ctx op p tr r p' :
      reachable p →
      runs (call ctx op p) tr (r, p') →
      reachable p'.

(** The event an entry of a run records. *)
Definition obs_event (o : Obs) : Event :=
  match o with
  | ObsRangeServices m _ => RangeServices m
  | ObsRangeEnvironment m _ => RangeEnvironment m
  | ObsCombinedOutput c _ => CombinedOutput c
  | ObsTempDir d p _ => TempDir d p
  | ObsWriteFile f d p _ => WriteFile f d p
  end.

(** Whatever the answers, the program asks only events that satisfy
    [P]. *)
Fixpoint asks {A} (P : Event → Prop) (p : IO A) : Prop :=
  match p with
  | Ret _ => True
  | Vis e k => P e ∧ ∀ ans, asks P (k ans)
  end.

(** The five subprocesses the provider knows, all under the context of
    the caller; the two of [docker-compose] name the project. *)
Definition knownCmd (ctx : context_Context) (config : ComposeConfig)
    (c : Cmd) : Prop :=
  (∃ composeFile, c = upCmd ctx config composeFile) ∨
  (∃ composeFile, c = downCmd ctx config composeFile) ∨
  (∃ service, c = psCmd ctx config service) ∨
  (∃ containerID, c = inspectCmd ctx containerID) ∨
  (∃ containerID, c = logsCmd ctx containerID).

Definition knownEvent (ctx : context_Context) (config : ComposeConfig)
    (e : Event) : Prop :=
  match e with
  | CombinedOutput c => knownCmd ctx config c
  | TempDir dir pattern => dir = "" ∧ pattern = "docker-compose-"
  | WriteFile _ _ perm => perm = 420%N
  | _ => True
  end.

(** The events on the file system. *)
Definition is_fs (e : Event) : bool :=
  match e with
  | TempDir _ _ | WriteFile _ _ _ => true
  | _ => false
  end.

(** ** Runs of programs *)

Lemma runs_Ret {A} (x : A) tr a : runs (Ret x) tr a ↔ tr = [] ∧ a = x.
Proof. reflexivity. Qed.

Lemma runs_trigger e tr (a : Answer e) :
  runs (trigger e) tr a ↔ admissible e a ∧ tr = [observe e a].
Proof.
  unfold trigger; simpl. split.
  - intros (ans & tr' & Hadm & -> & -> & ->). done.
  - intros [Hadm ->]. by exists a, [].
Qed.

Lemma runs_bind {A B} (m : IO A) (f : A → IO B) tr b :
  runs (bind m f) tr b ↔
  ∃ a tr1 tr2, runs m tr1 a ∧ runs (f a) tr2 b ∧ tr = tr1 ++ tr2.
Proof.
  revert tr. induction m as [x|e k IH]; intros tr; simpl.
  - split.
    + intros Hf. by exists x, [], tr.
    + intros (a & tr1 & tr2 & [-> ->] & Hf & ->). done.
  - split.
    + intros (ans & tr' & Hadm & -> & Hk).
      apply IH in Hk as (a & tr1 & tr2 & Hm & Hf & ->).
      exists a, (observe e ans :: tr1), tr2. split; [|done].
      by exists ans, tr1.
    + intros (a & tr1 & tr2 & (ans & tr' & Hadm & -> & Hk) & Hf & ->).
      exists ans, (tr' ++ tr2). split; [done|]. split; [done|].
      apply IH. by exists a, tr', tr2.
Qed.

Lemma runs_forEach_cons {A S} (x : A) l (body : S → A → IO S) s tr s' :
  runs (forEach (x :: l) body s) tr s' ↔
  ∃ s1 tr1 tr2,
    runs (body s x) tr1 s1 ∧ runs (forEach l body s1) tr2 s' ∧ tr = tr1 ++ tr2.
Proof. simpl. apply runs_bind. Qed.

Lemma admissible_inhabited e : ∃ ans, admissible e ans.
Proof.
  destruct e; simpl.
  - by exists (map_to_list m).
  - by exists (map_to_list m).
  - by exists ("", None).
  - by exists ("", None).
  - by exists None.
Qed.

(** Every program has a run: whatever it asks, some answer is allowed,
    and it stops after finitely many questions. *)
Lemma runs_total {A} (p : IO A) : ∃ tr a, runs p tr a.
Proof.
  induction p as [x|e k IH]; simpl.
  - by exists [], x.
  - destruct (admissible_inhabited e) as [ans Hans].
    destruct (IH ans) as (tr & a & Hk).
    exists (observe e ans :: tr), a, ans, tr. done.
Qed.

(** What an executable environment with allowed answers produces is a
    run. *)
Lemma exec_runs {W A} (h : W → ∀ e, Answer e * W) (w : W) (p : IO A) :
  (∀ w e, admissible e (h w e).1) →
  runs p (exec h w p).2 (exec h w p).1.
Proof.
  intros Hh. revert w. induction p as [x|e k IH]; intros w; simpl; [done|].
  specialize (Hh w e). destruct (h w e) as [ans w'].
  specialize (IH ans w'). destruct (exec h w' (k ans)) as [a' tr'].
  exists ans, tr'. eauto.
Qed.

Lemma scripted_admissible (R : relation string) `{!RelDecision R} script e :
  admissible e (scripted R script e).1.
Proof. destruct e; simpl; try done; apply merge_sort_Permutation. Qed.

Lemma entriesBy_sorted {V} (R : relation string) `{!RelDecision R, !Total R}
    (m : gmap string V) :
  Sorted R (entriesBy R m).*1.
Proof.
  unfold entriesBy.
  apply (Sorted_fmap fst (λ x y : string * V, R x.1 y.1) R); [done|].
  apply Sorted_merge_sort. intros x y. apply (total R).
Qed.

Lemma scripted_sorted {A} (R : relation string) `{!RelDecision R, !Total R}
    script (p : IO A) :
  Forall (obs_sorted R) (exec (scripted R) script p).2.
Proof.
  revert script. induction p as [x|e k IH]; intros script; simpl; [done|].
  destruct (scripted R script e) as [ans script'] eqn:Hans.
  specialize (IH ans script').
  destruct (exec (scripted R) script' (k ans)) as [a' tr']. simpl in *.
  constructor; [|done].
  destruct e; simpl in *; try done;
    injection Hans as <- _; apply entriesBy_sorted; done.
Qed.

Lemma no_io_bind {A B} (m : IO A) (f : A → IO B) :
  no_io m → (∀ a, no_io (f a)) → no_io (bind m f).
Proof.
  intros Hm Hf. induction m as [x|e k IH]; simpl in *; [done|].
  destruct Hm as [He Hk]. split; [done|]. intros ans. by apply IH.
Qed.

Lemma no_io_forEach {A S} (l : list A) (body : S → A → IO S) s :
  (∀ s x, no_io (body s x)) → no_io (forEach l body s).
Proof.
  intros Hbody. revert s. induction l as [|x l IH]; intros s; simpl; [done|].
  apply no_io_bind; [done|]. intros s'. apply IH.
Qed.

Lemma no_io_runs {A} (p : IO A) tr a :
  no_io p → runs p tr a → Forall (λ o, obs_is_io o = false) tr.
Proof.
  revert tr. induction p as [x|e k IH]; intros tr; simpl.
  - by intros _ [-> _].
  - intros [He Hk] (ans & tr' & _ & -> & Hrun).
    constructor; [by destruct e|]. by eapply IH.
Qed.

(** ** The serializer asks for no I/O *)

Lemma no_io_writeService sb serviceName serviceConfig :
  no_io (writeService sb serviceName serviceConfig).
Proof.
  unfold writeService.
  repeat (apply no_io_bind; [|intros ?]);
    try case_decide; try done;
    try (apply no_io_forEach; by intros).
  apply no_io_bind; [done|]. intros env.
  apply no_io_forEach. by intros ? [? ?].
Qed.

Lemma no_io_generateComposeContent config :
  no_io (generateComposeContent config).
Proof.
  unfold generateComposeContent.
  apply no_io_bind; [done|]. intros services.
  apply no_io_bind; [|done].
  apply no_io_forEach. intros ? [? ?]. apply no_io_writeService.
Qed.

(** ** Iterating in a fixed order *)

Lemma Sorted_fst {V} (R : relation string) (l : list (string * V)) :
  Sorted R l.*1 → Sorted (λ x y, R x.1 y.1) l.
Proof.
  induction l as [|x l IH]; simpl; [constructor|].
  intros Hs. apply Sorted_inv in Hs as [Hl Hhd].
  constructor; [by apply IH|].
  destruct l; simpl in *; constructor. by apply HdRel_inv in Hhd.
Qed.

Lemma sorted_range_unique {V} (R : relation string) `{!TotalOrder R}
    (m : gmap string V) (l1 l2 : list (string * V)) :
  l1 ≡ₚ map_to_list m → l2 ≡ₚ map_to_list m →
  Sorted R l1.*1 → Sorted R l2.*1 → l1 = l2.
Proof.
  intros H1 H2 Hs1 Hs2.
  assert (Transitive (λ x y : string * V, R x.1 y.1)).
  { intros x y z Hxy Hyz. by etrans. }
  apply (Sorted_unique_strong (λ x y : string * V, R x.1 y.1)).
  - intros [k1 v1] [k2 v2] Hin1 Hin2 Hle Hge; simpl in *.
    assert (k1 = k2) as -> by (by apply (anti_symm R)).
    rewrite H1 in Hin1. rewrite H2 in Hin2.
    f_equal. exact (map_to_list_unique m k2 v1 v2 Hin1 Hin2).
  - by apply Sorted_fst.
  - by apply Sorted_fst.
  - by rewrite H1, H2.
Qed.

Lemma runs_sorted_deterministic {A} (R : relation string) `{!TotalOrder R}
    (p : IO A) tr1 tr2 a1 a2 :
  no_io p →
  runs p tr1 a1 → runs p tr2 a2 →
  Forall (obs_sorted R) tr1 → Forall (obs_sorted R) tr2 →
  tr1 = tr2 ∧ a1 = a2.
Proof.
  revert tr1 tr2. induction p as [x|e k IH]; intros tr1 tr2; simpl.
  - by intros _ [-> ->] [-> ->] _ _.
  - intros [He Hk] (ans1 & tr1' & Hadm1 & -> & Hrun1)
      (ans2 & tr2' & Hadm2 & -> & Hrun2) Hs1 Hs2.
    apply Forall_cons in Hs1 as [Ho1 Hs1].
    apply Forall_cons in Hs2 as [Ho2 Hs2].
    assert (ans1 = ans2) as ->.
    { destruct e; simpl in *; try done; by eapply sorted_range_unique. }
    destruct (IH ans2 tr1' tr2') as [-> ->]; done.
Qed.

(** ** Text *)

Lemma string_app_cons a s t : String a s +:+ t = String a (s +:+ t).
Proof. reflexivity. Qed.

Lemma string_app_assoc (s t u : string) : (s +:+ t) +:+ u = s +:+ (t +:+ u).
Proof.
  induction s as [|a s IH]; [done|].
  by rewrite !string_app_cons, IH.
Qed.

Lemma string_app_nil_r (s : string) : s +:+ "" = s.
Proof.
  induction s as [|a s IH]; [done|]. by rewrite string_app_cons, IH.
Qed.

(** ** The serializer *)

Lemma generateComposeContent_runs config tr r :
  runs (generateComposeContent config) tr r ↔
  ∃ services tr' sb,
    services ≡ₚ map_to_list (Services config) ∧
    tr = ObsRangeServices (Services config) services :: tr' ∧
    runs (writeServices services composeHeader) tr' sb ∧
    r = (writeNetworks sb config, None).
Proof.
  unfold generateComposeContent. rewrite runs_bind. split.
  - intros (services & tr1 & tr2 & Hrange & Hrest & ->).
    apply runs_trigger in Hrange as [Hperm ->].
    apply runs_bind in Hrest as (sb & tr3 & tr4 & Hloop & [-> ->] & ->).
    exists services, tr3, sb. by rewrite app_nil_r.
  - intros (services & tr' & sb & Hperm & -> & Hloop & ->).
    exists services, [ObsRangeServices (Services config) services], tr'.
    split; [by apply runs_trigger|]. split; [|done].
    apply runs_bind. exists sb, tr', []. by rewrite app_nil_r.
Qed.

(** C3. A service without port mappings, volume mappings, environment,
    dependencies and resource limits adds to the text exactly its name
    key, its image line and, when the restart policy is not empty, its
    restart line; it asks nothing of the environment. *)
Theorem writeService_minimal (sb serviceName : string)
    (serviceConfig : ServiceConfig) :
  ExposedPorts serviceConfig = [] →
  Volumes serviceConfig = [] →
  Environment serviceConfig = ∅ →
  DependsOn serviceConfig = [] →
  Memory (Resources serviceConfig) = "" →
  CPUShare (Resources serviceConfig) = "" →
  writeService sb serviceName serviceConfig
  = Ret (sb +:+ imageAndRestart serviceName serviceConfig).
Proof.
  intros Hports Hvolumes Henv Hdeps Hmem Hcpu.
  unfold writeService, imageAndRestart.
  rewrite Hports, Hvolumes, Henv, Hdeps, Hmem, Hcpu, map_size_empty.
  simpl. f_equal.
  destruct (decide (RestartPolicy serviceConfig ≠ "")); simpl;
    rewrite ?string_app_assoc, ?string_app_nil_r; reflexivity.
Qed.

(** C4. The serialized text is the version line and the services section
    followed by the networks block naming the topology's network, with
    driver bridge, when the network name is not empty, and by nothing
    when it is empty. *)
Theorem generateComposeContent_networks (config : ComposeConfig) tr out err :
  runs (generateComposeContent config) tr (out, err) →
  ∃ services tr' body,
    services ≡ₚ map_to_list (Services config) ∧
    runs (writeServices services composeHeader) tr' body ∧
    (Network config ≠ "" → out = body +:+ networksBlock (Network config)) ∧
    (Network config = "" → out = body).
Proof.
  intros Hrun.
  apply generateComposeContent_runs in Hrun
    as (services & tr' & body & Hperm & -> & Hloop & [= -> ->]).
  exists services, tr', body. split; [done|]. split; [done|].
  unfold writeNetworks, networksBlock.
  split; intros Hnet; case_decide; try done.
  by rewrite !string_app_assoc.
Qed.

(** C5. Serializing never fails: every topology has a run of the
    serializer, and every run returns a nil error. *)
Theorem generateComposeContent_never_fails (config : ComposeConfig) :
  (∃ tr out, runs (generateComposeContent config) tr (out, None)) ∧
  (∀ tr out err,
     runs (generateComposeContent config) tr (out, err) → err = None).
Proof.
  split.
  - destruct (runs_total (generateComposeContent config)) as (tr & r & Hrun).
    pose proof Hrun as Hrun'.
    apply generateComposeContent_runs in Hrun'
      as (services & tr' & sb & _ & _ & _ & ->).
    by exists tr, (writeNetworks sb config).
  - intros tr out err Hrun.
    by apply generateComposeContent_runs in Hrun
      as (services & tr' & sb & _ & _ & _ & [= _ ->]).
Qed.

(** ** The provider before initialization *)

(** C2, as the code has it. On a provider that was never initialized,
    [Start], [Stop], [Status] and [GetLogs] return the error
    "provider not initialized" at once, asking nothing of the environment
    and leaving the provider as it was; [GetServices], whose signature has
    no error result, returns the nil slice, also at once. *)
Theorem uninitialized_calls (ctx : context_Context) (p : DockerComposeProvider) :
  initialized p = false →
  Start ctx p = Ret (Some "provider not initialized", p) ∧
  Stop ctx p = Ret (Some "provider not initialized", p) ∧
  Status ctx p = Ret ((None, Some "provider not initialized"), p) ∧
  (∀ serviceName,
     GetLogs ctx serviceName p
     = Ret ((None, Some "provider not initialized"), p)) ∧
  GetServices p = Ret (None, p).
Proof.
  intros Hinit. unfold Start, Stop, Status, GetLogs, GetServices.
  rewrite Hinit. simpl. done.
Qed.

(** ** The identifier cache *)

(** C8. For a service name without a cached identifier, in any state of
    the provider, [GetContainerID] returns the empty string at once: it
    asks nothing of the environment, has no error result and leaves the
    provider as it was. *)
Theorem GetContainerID_absent (serviceName : string)
    (p : DockerComposeProvider) :
  containers p !! serviceName = None →
  GetContainerID serviceName p = Ret ("", p).
Proof. intros Habsent. unfold GetContainerID. by rewrite Habsent. Qed.

(** C9. [Initialize] succeeds at once, stores the topology and sets the
    flag, and leaves the identifier cache as it was: afterwards
    [GetContainerID] answers from the identifiers cached before the call,
    whatever the new topology declares. *)
Theorem Initialize_keeps_cache (ctx : context_Context) (config0 : ComposeConfig)
    (p : DockerComposeProvider) :
  ∃ p',
    Initialize ctx config0 p = Ret (None, p') ∧
    config p' = config0 ∧
    initialized p' = true ∧
    containers p' = containers p ∧
    ∀ serviceName,
      GetContainerID serviceName p'
      = Ret (default "" (containers p !! serviceName), p').
Proof. by eexists. Qed.

(** ** Taking runs apart *)

Ltac run_inv :=
  repeat match goal with
  | H : runs (Ret _) _ _ |- _ => destruct H as [-> H]; simplify_eq
  | H : runs (trigger _) _ _ |- _ => apply runs_trigger in H as [? ->]
  | H : runs (bind _ _) _ _ |- _ =>
      let a := fresh "a" in
      let tr1 := fresh "tr" in
      let tr2 := fresh "tr" in
      let H1 := fresh "Hrun" in
      apply runs_bind in H as (a & tr1 & tr2 & H1 & H & ->)
  | H : runs (match ?x with _ => _ end) _ _ |- _ => destruct x eqn:?
  end.

Lemma updateContainerIDs_runs ctx p tr err p' :
  runs (updateContainerIDs ctx p) tr (err, p') →
  err = None ∧ ∃ cache, p' = set_containers p cache.
Proof.
  unfold updateContainerIDs. intros Hrun. run_inv. eauto.
Qed.

Lemma generateComposeFile_runs config tr r :
  runs (generateComposeFile config) tr r →
  ∀ c reply, ObsCombinedOutput c reply ∉ tr.
Proof.
  unfold generateComposeFile. intros Hrun c reply Hin. run_inv;
    repeat match goal with
    | H : runs (generateComposeContent _) _ _ |- _ =>
        apply (no_io_runs _ _ _ (no_io_generateComposeContent _)) in H;
        rewrite Forall_forall in H
    | H : _ ∈ _ ++ _ |- _ => apply elem_of_app in H as [H|H]
    | H : _ ∈ _ :: _ |- _ => apply elem_of_cons in H as [H|H]
    | H : _ ∈ [] |- _ => by apply elem_of_nil in H
    | H : ObsCombinedOutput _ _ = _ |- _ => by simplify_eq/=
    | H : ∀ x, x ∈ ?l → _, H' : _ ∈ ?l |- _ => by apply H in H'
    end.
Qed.

(** ** Stop *)

(** C7. When a run of [Stop] on an initialized provider contains a
    subprocess that succeeded, that subprocess is the
    [docker-compose ... down] of the stored project, [Stop] returns nil
    and the cache is empty afterwards: [GetContainerID] returns the empty
    string for every service name. *)
Theorem Stop_clears_cache (ctx : context_Context) (p : DockerComposeProvider)
    tr err p' c output :
  initialized p = true →
  runs (Stop ctx p) tr (err, p') →
  ObsCombinedOutput c (output, None) ∈ tr →
  (cmd_name c = "docker-compose" ∧
   ∃ composeFile,
     cmd_args c = ["-p"; ProjectName (config p); "-f"; composeFile; "down"]) ∧
  err = None ∧
  containers p' = ∅ ∧
  ∀ serviceName, GetContainerID serviceName p' = Ret ("", p').
Proof.
  intros Hinit Hrun Hin. unfold Stop in Hrun. rewrite Hinit in Hrun.
  cbn [negb] in Hrun. run_inv;
    repeat match goal with
    | H : _ ∈ _ ++ _ |- _ => apply elem_of_app in H as [H|H]
    | H : _ ∈ _ :: _ |- _ => apply elem_of_cons in H as [H|H]
    | H : _ ∈ [] |- _ => by apply elem_of_nil in H
    | H : runs (generateComposeFile _) ?l _, H' : _ ∈ ?l |- _ =>
        by apply (generateComposeFile_runs _ _ _ H) in H'
    end; simplify_eq/=.
  split; [eauto|]. done.
Qed.

(** ** Status *)

Lemma inspections_ext ctx cache reply1 reply2 services :
  (∀ s, s ∈ services → reply1 s = reply2 s) →
  inspections ctx cache reply1 services = inspections ctx cache reply2 services.
Proof.
  unfold inspections. induction services as [|x l IH]; intros Hext; [done|].
  simpl. rewrite IH by (intros; apply Hext; by right).
  by rewrite (Hext x) by left.
Qed.

(** The loop of [Status]: every service visited gets the status its own
    cache entry and its own [docker inspect] decide; the entries of the
    other keys stay as they were. *)
Lemma inspect_loop_runs ctx cache services st0 tr st :
  NoDup services →
  runs (forEach services (inspectService ctx cache) st0) tr st →
  ∃ reply,
    tr = inspections ctx cache reply services ∧
    (∀ s, s ∈ services →
          st !! s = Some (serviceStatus cache (reply s) s)) ∧
    (∀ s, s ∉ services → st !! s = st0 !! s).
Proof.
  intros Hnodup. revert st0 tr.
  induction Hnodup as [|x l Hx Hnodup IH]; intros st0 tr Hrun.
  - destruct Hrun as [-> ->]. exists (λ _, ("", None)).
    split; [done|]. split; [|done]. intros s Hs. by apply elem_of_nil in Hs.
  - apply runs_forEach_cons in Hrun as (st1 & tr1 & tr2 & Hbody & Hrest & ->).
    apply IH in Hrest as (reply & -> & Hin & Hout).
    unfold inspectService in Hbody.
    destruct (cache !! x) as [containerID|] eqn:Hcache.
    + apply runs_bind in Hbody as ([output err] & tr3 & tr4 & Hask & Hret & ->).
      apply runs_trigger in Hask as [_ ->].
      exists (λ s, if decide (s = x) then (output, err) else reply s).
      split; [|split].
      * unfold inspections at 1. simpl. rewrite Hcache, decide_True by done.
        fold (inspections ctx cache
                (λ s, if decide (s = x) then (output, err) else reply s) l).
        assert (tr4 = []) as -> by (destruct err; by destruct Hret).
        simpl. f_equal. apply inspections_ext.
        intros s Hs. rewrite decide_False; [done|]. by intros ->.
      * intros s [->|Hs]%elem_of_cons.
        -- rewrite Hout by done. rewrite decide_True by done.
           unfold serviceStatus. rewrite Hcache. simpl.
           destruct err; destruct Hret as [_ ->]; by rewrite lookup_insert_eq.
        -- rewrite decide_False by (by intros ->). by apply Hin.
      * intros s Hs. apply not_elem_of_cons in Hs as [Hne Hs].
        rewrite Hout by done.
        destruct err; destruct Hret as [_ ->]; by rewrite lookup_insert_ne.
    + destruct Hbody as [-> ->]. exists reply. split; [|split].
      * unfold inspections. simpl. by rewrite Hcache.
      * intros s [->|Hs]%elem_of_cons; [|by apply Hin].
        rewrite Hout by done. unfold serviceStatus. rewrite Hcache.
        by rewrite lookup_insert_eq.
      * intros s Hs. apply not_elem_of_cons in Hs as [Hne Hs].
        rewrite Hout by done. by rewrite lookup_insert_ne.
Qed.

Lemma Status_runs ctx p tr statuses err p' :
  initialized p = true →
  runs (Status ctx p) tr ((statuses, err), p') →
  ∃ st trRefresh order reply,
    statuses = Some st ∧ err = None ∧
    runs (updateContainerIDs ctx p) trRefresh (None, p') ∧
    order ≡ₚ map_to_list (Services (config p)) ∧
    tr = trRefresh
         ++ ObsRangeServices (Services (config p)) order
         :: inspections ctx (containers p') reply order.*1 ∧
    (∀ s, s ∈ order.*1 →
          st !! s = Some (serviceStatus (containers p') (reply s) s)) ∧
    (∀ s, s ∉ order.*1 → st !! s = None).
Proof.
  intros Hinit Hrun. unfold Status in Hrun. rewrite Hinit in Hrun.
  cbn [negb] in Hrun.
  apply runs_bind in Hrun as ([err1 p1] & trRefresh & tr2 & Hrefresh & Hrun & ->).
  destruct (updateContainerIDs_runs _ _ _ _ _ Hrefresh) as [-> _].
  apply runs_bind in Hrun as (order & tr3 & tr4 & Hrange & Hrun & ->).
  apply runs_trigger in Hrange as [Hperm ->].
  apply runs_bind in Hrun as (st & tr5 & tr6 & Hloop & [-> Heq] & ->).
  simplify_eq.
  apply inspect_loop_runs in Hloop as (reply & -> & Hin & Hout).
  - exists st, trRefresh, order, reply. rewrite app_nil_r.
    repeat split; try done.
  - simpl in Hperm. rewrite Hperm. apply NoDup_fst_map_to_list.
Qed.

Lemma declared_in_order (m : gmap string ServiceConfig)
    (order : list (string * ServiceConfig)) (service : string) :
  order ≡ₚ map_to_list m →
  service ∈ order.*1 ↔ is_Some (m !! service).
Proof.
  intros Hperm. rewrite Hperm, list_elem_of_fmap. split.
  - intros ([k v] & -> & Hin). apply elem_of_map_to_list in Hin. by exists v.
  - intros [v Hv]. exists (service, v). split; [done|].
    by apply elem_of_map_to_list.
Qed.

(** C6. A run of [Status] on an initialized provider returns a map and a
    nil error.  The run is the cache refresh, then the [range] over the
    declared services, then one [docker inspect] for each declared
    service that has an identifier in the refreshed cache; [reply] gives
    every service the answer to its own call.  A declared service without
    an identifier in the refreshed cache has status "not_found"; one whose
    own call failed has status "error"; one whose own call succeeded has
    the trimmed output of that call.  So the status of a service depends
    on its own cache entry and its own call only, not on its siblings. *)
Theorem Status_partial_failure (ctx : context_Context) (p : DockerComposeProvider)
    tr statuses err p' :
  initialized p = true →
  runs (Status ctx p) tr ((statuses, err), p') →
  err = None ∧
  ∃ st trRefresh order reply,
    statuses = Some st ∧
    runs (updateContainerIDs ctx p) trRefresh (None, p') ∧
    order ≡ₚ map_to_list (Services (config p)) ∧
    tr = trRefresh
         ++ ObsRangeServices (Services (config p)) order
         :: inspections ctx (containers p') reply order.*1 ∧
    ∀ service,
      is_Some (Services (config p) !! service) →
      match containers p' !! service with
      | None => st !! service = Some "not_found"
      | Some _ =>
          match (reply service).2 with
          | Some _ => st !! service = Some "error"
          | None => st !! service = Some (strings_TrimSpace (reply service).1)
          end
      end.
Proof.
  intros Hinit Hrun.
  apply Status_runs in Hrun
    as (st & trRefresh & order & reply & -> & -> & Hrefresh & Hperm & ->
        & Hin & _); [|done].
  split; [done|]. exists st, trRefresh, order, reply.
  repeat split; try done.
  intros service Hdecl. apply (declared_in_order _ order) in Hdecl; [|done].
  apply Hin in Hdecl. unfold serviceStatus in Hdecl.
  destruct (containers p' !! service); [|done].
  by destruct (reply service).2.
Qed.

(** ** The cache refresh never fails *)

(** C10. The cache refresh has a run and every run of it returns nil,
    whatever the provider holds and whatever the subprocesses answer.
    Hence on an initialized provider [Status] has a run, every run of it
    returns a map and a nil error, and every error [GetLogs] returns is
    one of its own three: the undeclared service, the missing container,
    the failed [docker logs]. *)
Theorem updateContainerIDs_never_fails (ctx : context_Context)
    (p : DockerComposeProvider) :
  (∃ tr p', runs (updateContainerIDs ctx p) tr (None, p')) ∧
  (∀ tr err p', runs (updateContainerIDs ctx p) tr (err, p') → err = None) ∧
  (initialized p = true →
   (∃ tr st p', runs (Status ctx p) tr ((Some st, None), p')) ∧
   (∀ tr statuses err p',
      runs (Status ctx p) tr ((statuses, err), p') →
      is_Some statuses ∧ err = None) ∧
   (∀ serviceName tr reader err p',
      runs (GetLogs ctx serviceName p) tr ((reader, err), p') →
      err = None
      ∨ err = Some ("service " +:+ serviceName +:+ " not found")
      ∨ err = Some ("container for service " +:+ serviceName
                     +:+ " not found")
      ∨ ∃ cause, err = Some ("failed to get logs: " +:+ cause))).
Proof.
  assert (∀ tr err p',
            runs (updateContainerIDs ctx p) tr (err, p') → err = None)
    as Hnil.
  { intros tr err p' Hrun. by apply updateContainerIDs_runs in Hrun as [-> _]. }
  split; [|split; [done|]].
  - destruct (runs_total (updateContainerIDs ctx p)) as (tr & [err p'] & Hrun).
    pose proof (Hnil _ _ _ Hrun) as ->. eauto.
  - intros Hinit. split; [|split].
    + destruct (runs_total (Status ctx p))
        as (tr & [[statuses err] p'] & Hrun).
      pose proof Hrun as Hshape.
      apply Status_runs in Hshape as (st & _ & _ & _ & -> & -> & _); [|done].
      eauto.
    + intros tr statuses err p' Hrun.
      apply Status_runs in Hrun as (st & _ & _ & _ & -> & -> & _); [|done].
      eauto.
    + intros serviceName tr reader err p' Hrun.
      unfold GetLogs in Hrun. rewrite Hinit in Hrun. cbn [negb] in Hrun.
      destruct (Services (config p) !! serviceName); [|run_inv; eauto].
      apply runs_bind in Hrun
        as ([err1 p1] & tr1 & tr2 & Hrefresh & Hrun & ->).
      pose proof (Hnil _ _ _ Hrefresh) as ->.
      run_inv; eauto 10.
Qed.

(** ** The text of a service and of a document *)

Lemma forEach_lines {A} (line : A → string) (l : list A) (sb : string) :
  forEach l (λ sb x, Ret (sb +:+ line x)) sb = Ret (sb +:+ joinLines line l).
Proof.
  revert sb. induction l as [|x l IH]; intros sb; simpl.
  - by rewrite string_app_nil_r.
  - by rewrite IH, string_app_assoc.
Qed.

Lemma titledBlock_nonempty {A} (title : string) (line : A → string) l :
  0 < length l → titledBlock title line l = title +:+ nl +:+ joinLines line l.
Proof. destruct l; simpl; [lia|done]. Qed.

Lemma titledBlock_empty {A} (title : string) (line : A → string) l :
  ¬ 0 < length l → titledBlock title line l = "".
Proof. destruct l; simpl; [done|lia]. Qed.

Lemma range_length {V} (m : gmap string V) (l : list (string * V)) :
  l ≡ₚ map_to_list m → length l = size m.
Proof. intros ->. by rewrite length_map_to_list. Qed.

Lemma runs_block {A} (title : string) (line : A → string) l sb tr out :
  runs (if decide (0 < length l)
        then forEach l (λ sb x, Ret (sb +:+ line x)) (sb +:+ (title +:+ nl))
        else Ret sb) tr out
  ↔ tr = [] ∧ out = sb +:+ titledBlock title line l.
Proof.
  case_decide as Hlen.
  - rewrite forEach_lines, titledBlock_nonempty by done.
    by rewrite !string_app_assoc.
  - rewrite titledBlock_empty by done. by rewrite string_app_nil_r.
Qed.

Lemma runs_environment_lines (env : list (string * string)) sb tr out :
  runs (forEach env
          (λ sb '(key, value),
             Ret (sb +:+ ("      - " +:+ key +:+ "=" +:+ value +:+ nl)))
          sb) tr out
  ↔ tr = [] ∧ out = sb +:+ joinLines environmentLine env.
Proof.
  revert sb. induction env as [|[key value] env IH]; intros sb; simpl.
  - by rewrite string_app_nil_r.
  - rewrite IH. by rewrite string_app_assoc.
Qed.

Lemma runs_environment_block (m : gmap string string) sb tr out :
  runs (if decide (0 < size m)
        then
          bind (trigger (RangeEnvironment m))
            (λ env,
               forEach env
                 (λ sb '(key, value),
                    Ret (sb +:+ ("      - " +:+ key +:+ "=" +:+ value +:+ nl)))
                 (sb +:+ ("    environment:" +:+ nl)))
        else Ret sb) tr out
  ↔ ∃ env,
      env ≡ₚ map_to_list m ∧
      out = sb +:+ titledBlock "    environment:" environmentLine env ∧
      tr = if decide (0 < size m) then [ObsRangeEnvironment m env] else [].
Proof.
  case_decide as Hsize.
  - rewrite runs_bind. split.
    + intros (env & tr1 & tr2 & Hrange & Hloop & ->).
      apply runs_trigger in Hrange as [Hperm ->].
      apply runs_environment_lines in Hloop as [-> ->].
      exists env. split; [done|]. split; [|done].
      rewrite titledBlock_nonempty by (by rewrite (range_length m)).
      by rewrite !string_app_assoc.
    + intros (env & Hperm & -> & ->).
      exists env, [ObsRangeEnvironment m env], []. split; [by apply runs_trigger|].
      split; [|done]. apply runs_environment_lines. split; [done|].
      rewrite titledBlock_nonempty by (by rewrite (range_length m)).
      by rewrite !string_app_assoc.
  - simpl. split.
    + intros [-> ->]. exists (map_to_list m). split; [done|]. split; [|done].
      rewrite titledBlock_empty by (by rewrite length_map_to_list).
      by rewrite string_app_nil_r.
    + intros (env & Hperm & -> & ->). split; [done|].
      rewrite titledBlock_empty by (by rewrite (range_length m)).
      by rewrite string_app_nil_r.
Qed.

Lemma deploy_text (sb : string) (limits : ResourceLimits) :
  (if decide (Memory limits ≠ "" ∨ CPUShare limits ≠ "")
   then
     let sb := sb +:+ ("    deploy:" +:+ nl) in
     let sb := sb +:+ ("      resources:" +:+ nl) in
     let sb := sb +:+ ("        limits:" +:+ nl) in
     let sb :=
       if decide (Memory limits ≠ "")
       then sb +:+ ("          memory: " +:+ Memory limits +:+ nl)
       else sb in
     if decide (CPUShare limits ≠ "")
     then sb +:+ ("          cpus: " +:+ CPUShare limits +:+ nl)
     else sb
   else sb)
  = sb +:+ deployBlock limits.
Proof.
  unfold deployBlock. cbv zeta.
  repeat case_decide;
    rewrite ?string_app_assoc, ?string_app_nil_r; reflexivity.
Qed.

Lemma restart_text (sb serviceName : string) (serviceConfig : ServiceConfig) :
  (let sb := sb +:+ ("  " +:+ serviceName +:+ ":" +:+ nl) in
   let sb := sb +:+ ("    image: " +:+ ImageName serviceConfig +:+ ":"
                      +:+ ImageTag serviceConfig +:+ nl) in
   if decide (RestartPolicy serviceConfig ≠ "")
   then sb +:+ ("    restart: " +:+ RestartPolicy serviceConfig +:+ nl)
   else sb)
  = sb +:+ imageAndRestart serviceName serviceConfig.
Proof.
  unfold imageAndRestart. cbv zeta.
  case_decide; rewrite ?string_app_assoc, ?string_app_nil_r; reflexivity.
Qed.

Lemma writeService_runs (sb serviceName : string)
    (serviceConfig : ServiceConfig) tr out :
  runs (writeService sb serviceName serviceConfig) tr out ↔
  ∃ env,
    env ≡ₚ map_to_list (Environment serviceConfig) ∧
    out = sb +:+ serviceText serviceName serviceConfig env ∧
    tr = if decide (0 < size (Environment serviceConfig))
         then [ObsRangeEnvironment (Environment serviceConfig) env]
         else [].
Proof.
  unfold writeService. cbv zeta.
  pose proof (restart_text sb serviceName serviceConfig) as Hhead.
  cbv zeta in Hhead. rewrite Hhead. clear Hhead.
  rewrite runs_bind.
  setoid_rewrite (runs_block "    ports:" portLine).
  setoid_rewrite runs_bind.
  setoid_rewrite (runs_block "    volumes:" volumeLine).
  setoid_rewrite runs_bind.
  setoid_rewrite runs_environment_block.
  setoid_rewrite runs_bind.
  setoid_rewrite (runs_block "    depends_on:" dependencyLine).
  pose proof deploy_text as Hdeploy. cbv zeta in Hdeploy.
  setoid_rewrite Hdeploy. clear Hdeploy.
  unfold serviceText. split.
  - intros (a1 & tr1 & tr2 & [-> ->] & (a2 & tr3 & tr4 & [-> ->]
            & (a3 & tr5 & tr6 & (env & Hperm & -> & ->)
               & (a4 & tr7 & tr8 & [-> ->] & [-> ->] & ->) & ->) & ->) & ->).
    exists env. split; [done|]. rewrite !string_app_assoc.
    split; [done|]. by rewrite !app_nil_r.
  - intros (env & Hperm & -> & ->).
    eexists _, [], _. split; [done|]. split; [|done].
    eexists _, [], _. split; [done|]. split; [|done].
    eexists _, _, []. split; [by exists env|]. split; [|by rewrite app_nil_r].
    eexists _, [], []. split; [done|]. split; [|done].
    split; [done|]. by rewrite !string_app_assoc.
Qed.

(** X1. The text of one service.  Every run of the loop body appends to
    the builder the name key, the image line, the restart line when the
    policy is set, then the ports, volumes, environment and depends_on
    blocks, each left out when it has no element, then the deploy block
    when a limit is set: always in this order.  The only freedom is the
    order [env] of the environment lines, and the body asks the
    environment for nothing but that order. *)
Theorem writeService_text (sb serviceName : string)
    (serviceConfig : ServiceConfig) tr out :
  runs (writeService sb serviceName serviceConfig) tr out ↔
  ∃ env,
    env ≡ₚ map_to_list (Environment serviceConfig) ∧
    out = sb +:+ serviceText serviceName serviceConfig env ∧
    tr = if decide (0 < size (Environment serviceConfig))
         then [ObsRangeEnvironment (Environment serviceConfig) env]
         else [].
Proof. split; intros Hrun; by apply writeService_runs. Qed.

Lemma writeServices_runs (services : list (string * ServiceConfig)) sb tr out :
  runs (writeServices services sb) tr out ↔
  ∃ walk : Walk,
    walk.*1 = services ∧
    Forall (λ step, step.2 ≡ₚ map_to_list (Environment step.1.2)) walk ∧
    out = sb +:+ servicesText walk ∧
    tr = walkTrace walk.
Proof.
  unfold writeServices. revert sb tr.
  induction services as [|[serviceName serviceConfig] services IH];
    intros sb tr.
  - simpl. split.
    + intros [-> ->]. exists []. by rewrite string_app_nil_r.
    + intros (walk & Hwalk & _ & -> & ->).
      apply fmap_nil_inv in Hwalk as ->. by rewrite string_app_nil_r.
  - rewrite runs_forEach_cons. split.
    + intros (sb1 & tr1 & tr2 & Hbody & Hrest & ->).
      apply writeService_runs in Hbody as (env & Hperm & -> & ->).
      apply IH in Hrest as (walk & <- & Hwalk & -> & ->).
      exists ((serviceName, serviceConfig, env) :: walk).
      split; [done|]. split; [by constructor|].
      split; [by rewrite string_app_assoc|done].
    + intros (walk & Hwalk & Henvs & -> & ->).
      destruct walk as [|[[n c] env] walk]; [done|].
      injection Hwalk as -> -> <-.
      apply Forall_cons in Henvs as [Hperm Henvs]. simpl in Hperm.
      exists (sb +:+ serviceText serviceName serviceConfig env),
        (if decide (0 < size (Environment serviceConfig))
         then [ObsRangeEnvironment (Environment serviceConfig) env] else []),
        (walkTrace walk).
      split; [apply writeService_runs; by exists env|].
      split; [|done].
      apply IH. exists walk. split; [done|]. split; [done|].
      split; [by rewrite string_app_assoc|done].
Qed.

Lemma generateComposeContent_walk (config : ComposeConfig) tr r :
  runs (generateComposeContent config) tr r ↔
  ∃ walk : Walk,
    walks config walk ∧
    r = (documentText config walk, None) ∧
    tr = ObsRangeServices (Services config) walk.*1 :: walkTrace walk.
Proof.
  rewrite generateComposeContent_runs. unfold walks, documentText. split.
  - intros (services & tr' & sb & Hperm & -> & Hloop & ->).
    apply writeServices_runs in Hloop as (walk & <- & Henvs & -> & ->).
    exists walk. split; [done|]. split; [|done]. f_equal.
    unfold writeNetworks, networksText, networksBlock.
    case_decide; rewrite ?string_app_assoc, ?string_app_nil_r; done.
  - intros (walk & [Hperm Henvs] & -> & ->).
    exists walk.*1, (walkTrace walk), (composeHeader +:+ servicesText walk).
    split; [done|]. split; [done|].
    split; [apply writeServices_runs; by exists walk|]. f_equal.
    unfold writeNetworks, networksText, networksBlock.
    case_decide; rewrite ?string_app_assoc, ?string_app_nil_r; done.
Qed.

(** X2. The text of a document.  The runs of the serializer on a topology
    are exactly its walks: the services in some order, each with its
    environment in some order.  The run of a walk returns the version
    line and the services key, the texts of the services in the order of
    the walk, and the networks block when the network is named; its
    error is nil. *)
Theorem generateComposeContent_text (config : ComposeConfig) tr r :
  runs (generateComposeContent config) tr r ↔
  ∃ walk : Walk,
    walks config walk ∧
    r = (documentText config walk, None) ∧
    tr = ObsRangeServices (Services config) walk.*1 :: walkTrace walk.
Proof. split; intros Hrun; by apply generateComposeContent_walk. Qed.

(** X3. A topology without services (a nil or empty map) serializes
    without error to the version line, the bare services key and, when
    the network is named, the networks block; the run asks for the empty
    walk only. *)
Theorem generateComposeContent_no_services (config : ComposeConfig) tr r :
  Services config = ∅ →
  runs (generateComposeContent config) tr r →
  r = ("version: " +:+ dq +:+ "3.4" +:+ dq +:+ nl +:+ nl
       +:+ "services:" +:+ nl +:+ networksText config, None) ∧
  tr = [ObsRangeServices ∅ []].
Proof.
  intros Hempty Hrun.
  apply generateComposeContent_walk in Hrun as (walk & [Hperm _] & -> & ->).
  rewrite Hempty, map_to_list_empty in Hperm.
  apply Permutation_nil_r, fmap_nil_inv in Hperm as ->.
  rewrite Hempty. split; [|done]. unfold documentText. f_equal.
Qed.

Lemma short_range_forced {A} (l1 l2 l : list A) :
  (length l ≤ 1)%nat → l1 ≡ₚ l → l2 ≡ₚ l → l1 = l2.
Proof.
  intros Hlen H1 H2. destruct l as [|x [|y l]]; simpl in Hlen; [| |lia].
  - apply Permutation_nil_r in H1 as ->. by apply Permutation_nil_r in H2 as ->.
  - apply Permutation_singleton_r in H1 as ->.
    by apply Permutation_singleton_r in H2 as ->.
Qed.

Lemma walk_forced (config : ComposeConfig) (walk1 walk2 : Walk) :
  (size (Services config) ≤ 1)%nat →
  (∀ serviceName serviceConfig,
     Services config !! serviceName = Some serviceConfig →
     (size (Environment serviceConfig) ≤ 1)%nat) →
  walks config walk1 → walks config walk2 → walk1 = walk2.
Proof.
  intros Hone Henv [Hperm1 Henvs1] [Hperm2 Henvs2].
  assert (walk1.*1 = walk2.*1) as Hfst.
  { eapply short_range_forced; [|done..]. by rewrite length_map_to_list. }
  assert (∀ step, step ∈ walk1 ∨ step ∈ walk2 →
                  step.2 = map_to_list (Environment step.1.2)) as Hsnd.
  { intros [[n c] env] Hin. simpl.
    assert ((n, c) ∈ map_to_list (Services config)) as Hdecl.
    { destruct Hin as [Hin|Hin];
        [rewrite <-Hperm1|rewrite <-Hperm2];
        apply list_elem_of_fmap; by exists (n, c, env). }
    apply elem_of_map_to_list in Hdecl.
    assert (env ≡ₚ map_to_list (Environment c)) as Hperm.
    { destruct Hin as [Hin|Hin];
        [rewrite Forall_forall in Henvs1; by apply Henvs1 in Hin
        |rewrite Forall_forall in Henvs2; by apply Henvs2 in Hin]. }
    eapply short_range_forced; [|done..].
    rewrite length_map_to_list. by eapply Henv. }
  clear -Hfst Hsnd. revert walk2 Hfst Hsnd.
  induction walk1 as [|[e1 env1] walk1 IH]; intros [|[e2 env2] walk2] Hfst Hsnd;
    try done.
  injection Hfst as -> Hfst. f_equal.
  - f_equal.
    pose proof (Hsnd (e2, env1) (or_introl (list_elem_of_here _ _))) as H1.
    pose proof (Hsnd (e2, env2) (or_intror (list_elem_of_here _ _))) as H2.
    simpl in H1, H2. congruence.
  - apply IH; [done|]. intros step [Hin|Hin]; apply Hsnd; [left|right];
      by right.
Qed.

(** X4. When the topology declares at most one service and every
    declared service has at most one environment variable, [range] has
    no choice: all runs of the serializer return the same text and ask
    the same questions, whatever the order of iteration. *)
Theorem generateComposeContent_single_deterministic (config : ComposeConfig)
    tr1 tr2 r1 r2 :
  (size (Services config) ≤ 1)%nat →
  (∀ serviceName serviceConfig,
     Services config !! serviceName = Some serviceConfig →
     (size (Environment serviceConfig) ≤ 1)%nat) →
  runs (generateComposeContent config) tr1 r1 →
  runs (generateComposeContent config) tr2 r2 →
  r1 = r2 ∧ tr1 = tr2.
Proof.
  intros Hone Henv Hrun1 Hrun2.
  apply generateComposeContent_walk in Hrun1 as (walk1 & Hwalk1 & -> & ->).
  apply generateComposeContent_walk in Hrun2 as (walk2 & Hwalk2 & -> & ->).
  by rewrite (walk_forced config walk1 walk2).
Qed.

(** ** Staging *)

Lemma generateComposeFile_stage (config : ComposeConfig) tr r :
  runs (generateComposeFile config) tr r ↔
  (∃ tempDir cause,
     tr = [ObsTempDir "" "docker-compose-" (tempDir, Some cause)] ∧
     r = ("", Some ("failed to create temp directory: " +:+ cause))) ∨
  (∃ tempDir walk written,
     walks config walk ∧
     tr = stageTrace config tempDir walk written ∧
     r = match written with
         | Some cause => ("", Some ("failed to write compose file: " +:+ cause))
         | None => (filepath_Join tempDir "docker-compose.yml", None)
         end).
Proof.
  unfold generateComposeFile, stageTrace. rewrite runs_bind. split.
  - intros ([tempDir terr] & tr1 & tr2 & Hdir & Hrest & ->).
    apply runs_trigger in Hdir as [_ ->].
    destruct terr as [cause|].
    + destruct Hrest as [-> ->]. left. by exists tempDir, cause.
    + apply runs_bind in Hrest as ([content cerr] & tr3 & tr4 & Hgen & Hrest & ->).
      apply generateComposeContent_walk in Hgen as (walk & Hwalk & [= -> ->] & ->).
      apply runs_bind in Hrest as (written & tr5 & tr6 & Hwrite & Hrest & ->).
      apply runs_trigger in Hwrite as [_ ->].
      right. exists tempDir, walk, written. split; [done|].
      destruct written; destruct Hrest as [-> ->]; by rewrite app_nil_r.
  - intros [(tempDir & cause & -> & ->)|(tempDir & walk & written & Hwalk & -> & ->)].
    + exists (tempDir, Some cause),
        [ObsTempDir "" "docker-compose-" (tempDir, Some cause)], [].
      split; [by apply runs_trigger|]. done.
    + exists (tempDir, None), [ObsTempDir "" "docker-compose-" (tempDir, None)],
        (ObsRangeServices (Services config) walk.*1
         :: walkTrace walk
         ++ [ObsWriteFile (filepath_Join tempDir "docker-compose.yml")
               (documentText config walk) 420 written]).
      split; [by apply runs_trigger|]. split; [|done].
      apply runs_bind.
      exists (documentText config walk, None),
        (ObsRangeServices (Services config) walk.*1 :: walkTrace walk),
        [ObsWriteFile (filepath_Join tempDir "docker-compose.yml")
           (documentText config walk) 420 written].
      split; [apply generateComposeContent_walk; by exists walk|].
      split; [|done].
      apply runs_bind.
      exists written,
        [ObsWriteFile (filepath_Join tempDir "docker-compose.yml")
           (documentText config walk) 420 written], [].
      split; [by apply runs_trigger|]. by destruct written.
Qed.

(** X5. Staging succeeds exactly when the directory could be made and the
    file could be written.  The path returned is [docker-compose.yml]
    joined to the directory [ioutil.TempDir] answered, and the file
    written there, with mode 0644, holds the text of a walk of the
    topology. *)
Theorem generateComposeFile_success (config : ComposeConfig) tr
    composeFilePath :
  runs (generateComposeFile config) tr (composeFilePath, None) ↔
  ∃ tempDir walk,
    walks config walk ∧
    composeFilePath = filepath_Join tempDir "docker-compose.yml" ∧
    tr = stageTrace config tempDir walk None.
Proof.
  rewrite generateComposeFile_stage. split.
  - intros [(tempDir & cause & _ & [=])
           |(tempDir & walk & [cause|] & Hwalk & -> & [= ->])].
    by exists tempDir, walk.
  - intros (tempDir & walk & Hwalk & -> & ->).
    right. by exists tempDir, walk, None.
Qed.

(** X6. Staging fails only in two ways, both with the empty path: the
    directory could not be made, and then nothing else was asked, no
    file written; or the file could not be written, after the document
    was generated.  Generating the content is never the cause. *)
Theorem generateComposeFile_failure (config : ComposeConfig) tr
    composeFilePath err :
  runs (generateComposeFile config) tr (composeFilePath, Some err) ↔
  composeFilePath = "" ∧
  ((∃ tempDir cause,
      err = "failed to create temp directory: " +:+ cause ∧
      tr = [ObsTempDir "" "docker-compose-" (tempDir, Some cause)]) ∨
   (∃ tempDir walk cause,
      walks config walk ∧
      err = "failed to write compose file: " +:+ cause ∧
      tr = stageTrace config tempDir walk (Some cause))).
Proof.
  rewrite generateComposeFile_stage. split.
  - intros [(tempDir & cause & -> & [= -> ->])
           |(tempDir & walk & [cause|] & Hwalk & -> & [= -> ->])].
    + split; [done|]. left. by exists tempDir, cause.
    + split; [done|]. right. by exists tempDir, walk, cause.
  - intros [-> [(tempDir & cause & -> & ->)
               |(tempDir & walk & cause & Hwalk & -> & ->)]].
    + left. by exists tempDir, cause.
    + right. by exists tempDir, walk, (Some cause).
Qed.

(** ** The cache refresh *)

Lemma queries_ext ctx config reply1 reply2 services :
  (∀ s, s ∈ services → reply1 s = reply2 s) →
  queries ctx config reply1 services = queries ctx config reply2 services.
Proof.
  intros Hext. unfold queries. apply list_fmap_ext.
  intros _ s Hs%list_elem_of_lookup_2. by rewrite Hext.
Qed.

(** The loop of the refresh: a service whose query succeeded with an
    identifier gets that identifier; the entries of all other keys stay
    as they were. *)
Lemma query_loop_runs ctx config services (cache0 : gmap string string)
    tr cache :
  NoDup services →
  runs (forEach services (queryContainerID ctx config) cache0) tr cache →
  ∃ reply,
    tr = queries ctx config reply services ∧
    (∀ s, s ∈ services →
          cache !! s = match refreshedEntry (reply s) with
                       | Some containerID => Some containerID
                       | None => cache0 !! s
                       end) ∧
    (∀ s, s ∉ services → cache !! s = cache0 !! s).
Proof.
  intros Hnodup. revert cache0 tr.
  induction Hnodup as [|x l Hx Hnodup IH]; intros cache0 tr Hrun.
  - destruct Hrun as [-> ->]. exists (λ _, ("", None)).
    split; [done|]. split; [|done]. intros s Hs. by apply elem_of_nil in Hs.
  - apply runs_forEach_cons in Hrun as (cache1 & tr1 & tr2 & Hbody & Hrest & ->).
    apply IH in Hrest as (reply & -> & Hin & Hout).
    unfold queryContainerID in Hbody.
    apply runs_bind in Hbody as ([output err] & tr3 & tr4 & Hask & Hret & ->).
    apply runs_trigger in Hask as [_ ->].
    assert (tr4 = [] ∧
            cache1 = match refreshedEntry (output, err) with
                     | Some containerID => <[x := containerID]> cache0
                     | None => cache0
                     end) as [-> ->].
    { unfold refreshedEntry. simpl. destruct err; [by destruct Hret|].
      case_decide; by destruct Hret. }
    exists (λ s, if decide (s = x) then (output, err) else reply s).
    split; [|split].
    + simpl. rewrite decide_True by done. f_equal.
      apply queries_ext. intros s Hs. rewrite decide_False; [done|].
      by intros ->.
    + intros s [->|Hs]%elem_of_cons.
      * rewrite Hout by done. rewrite decide_True by done.
        destruct (refreshedEntry (output, err)); [|done].
        by rewrite lookup_insert_eq.
      * rewrite decide_False by (by intros ->). rewrite Hin by done.
        destruct (refreshedEntry (reply s)); [done|].
        destruct (refreshedEntry (output, err)); [|done].
        rewrite lookup_insert_ne; [done|]. by intros ->.
    + intros s Hs. apply not_elem_of_cons in Hs as [Hne Hs].
      rewrite Hout by done.
      destruct (refreshedEntry (output, err)); [|done].
      by rewrite lookup_insert_ne.
Qed.

Lemma updateContainerIDs_refresh ctx p tr err p' :
  runs (updateContainerIDs ctx p) tr (err, p') →
  err = None ∧
  ∃ order reply,
    order ≡ₚ map_to_list (Services (config p)) ∧
    tr = ObsRangeServices (Services (config p)) order
         :: queries ctx (config p) reply order.*1 ∧
    config p' = config p ∧
    initialized p' = initialized p ∧
    ∀ s, containers p' !! s
         = match Services (config p) !! s with
           | Some _ => refreshedEntry (reply s)
           | None => None
           end.
Proof.
  unfold updateContainerIDs. intros Hrun.
  apply runs_bind in Hrun as (order & tr1 & tr2 & Hrange & Hrun & ->).
  apply runs_trigger in Hrange as [Hperm ->].
  apply runs_bind in Hrun as (cache & tr3 & tr4 & Hloop & [-> Heq] & ->).
  simplify_eq. simpl in Hperm.
  apply query_loop_runs in Hloop as (reply & -> & Hin & Hout);
    [|rewrite Hperm; apply NoDup_fst_map_to_list].
  split; [done|]. exists order, reply. rewrite app_nil_r.
  repeat split; try done.
  intros s. simpl.
  destruct (Services (config p) !! s) as [c|] eqn:Hdecl.
  - rewrite Hin
      by (apply (declared_in_order (Services (config p)) order); by eauto).
    by destruct (refreshedEntry (reply s)).
  - rewrite Hout; [done|].
    rewrite (declared_in_order (Services (config p)) order) by done.
    rewrite Hdecl. by intros [? ?].
Qed.

(** X7. The cache refresh.  Every run of the refresh returns nil, walks
    the declared services once and asks [docker-compose -p project ps -q
    service] once for each, in the order of the walk.  The new cache
    holds, for each declared service, the trimmed output of its own
    query when the query succeeded and that output is not empty, and
    nothing otherwise; it holds nothing for undeclared names, so
    whatever was cached before is gone.  The topology and the flag are
    untouched. *)
Theorem updateContainerIDs_spec (ctx : context_Context)
    (p : DockerComposeProvider) tr err p' :
  runs (updateContainerIDs ctx p) tr (err, p') →
  err = None ∧
  ∃ order reply,
    order ≡ₚ map_to_list (Services (config p)) ∧
    tr = ObsRangeServices (Services (config p)) order
         :: queries ctx (config p) reply order.*1 ∧
    config p' = config p ∧
    initialized p' = initialized p ∧
    ∀ s, containers p' !! s
         = match Services (config p) !! s with
           | Some _ => refreshedEntry (reply s)
           | None => None
           end.
Proof. apply updateContainerIDs_refresh. Qed.

Lemma refreshedEntry_nonempty reply containerID :
  refreshedEntry reply = Some containerID → containerID ≠ "".
Proof.
  unfold refreshedEntry. destruct reply.2; [done|].
  case_decide; [|done]. by intros [= <-].
Qed.

Lemma updateContainerIDs_cache ctx p tr err p' :
  runs (updateContainerIDs ctx p) tr (err, p') →
  config p' = config p ∧ initialized p' = initialized p ∧
  cache_nonempty p' ∧
  ∀ s, is_Some (containers p' !! s) → is_Some (Services (config p) !! s).
Proof.
  intros Hrun.
  apply updateContainerIDs_refresh in Hrun
    as (_ & order & reply & _ & _ & Hconfig & Hinit & Hcache).
  split; [done|]. split; [done|]. split.
  - intros s containerID Hs. rewrite Hcache in Hs.
    destruct (Services (config p) !! s); [|done].
    by eapply refreshedEntry_nonempty.
  - intros s [containerID Hs]. rewrite Hcache in Hs.
    by destruct (Services (config p) !! s).
Qed.

(** ** Start and Stop *)

Lemma Start_runs ctx p tr err p' :
  runs (Start ctx p) tr (err, p') →
  (initialized p = false ∧ tr = [] ∧
   err = Some "provider not initialized" ∧ p' = p) ∨
  (initialized p = true ∧
   ∃ trStage composeFile,
     (∃ cause,
        runs (generateComposeFile (config p)) trStage (composeFile, Some cause) ∧
        tr = trStage ∧
        err = Some ("failed to generate compose file: " +:+ cause) ∧
        p' = p) ∨
     (runs (generateComposeFile (config p)) trStage (composeFile, None) ∧
      ∃ output,
        (∃ cause,
           tr = trStage
                ++ [ObsCombinedOutput (upCmd ctx (config p) composeFile)
                      (output, Some cause)] ∧
           err = Some ("failed to start containers: " +:+ output
                        +:+ ", error: " +:+ cause) ∧
           p' = p) ∨
        (∃ trRefresh,
           runs (updateContainerIDs ctx p) trRefresh (err, p') ∧
           tr = trStage
                ++ ObsCombinedOutput (upCmd ctx (config p) composeFile)
                     (output, None)
                :: trRefresh))).
Proof.
  unfold Start. destruct (initialized p) eqn:Hinit; cbn [negb].
  - intros Hrun. right. split; [done|].
    apply runs_bind in Hrun as ([composeFile serr] & trStage & tr2 & Hstage & Hrun & ->).
    exists trStage, composeFile. destruct serr as [cause|].
    + left. exists cause. destruct Hrun as [-> [= -> ->]].
      by rewrite app_nil_r.
    + right. split; [done|].
      apply runs_bind in Hrun as ([output uerr] & tr3 & tr4 & Hup & Hrun & ->).
      apply runs_trigger in Hup as [_ ->].
      exists output. destruct uerr as [cause|].
      * left. exists cause. by destruct Hrun as [-> [= -> ->]].
      * right. by exists tr4.
  - intros [-> [= -> ->]]. by left.
Qed.

(** X8. A successful [Start].  [Start] returns nil exactly on an
    initialized provider when staging succeeded and the
    [docker-compose -p project -f file up -d] that follows, given the
    staged path, succeeded; the run then ends with a cache refresh, whose
    result is the provider afterwards. *)
Theorem Start_success (ctx : context_Context) (p : DockerComposeProvider)
    tr p' :
  runs (Start ctx p) tr (None, p') ↔
  initialized p = true ∧
  ∃ trStage composeFile output trRefresh,
    runs (generateComposeFile (config p)) trStage (composeFile, None) ∧
    runs (updateContainerIDs ctx p) trRefresh (None, p') ∧
    tr = trStage
         ++ ObsCombinedOutput (upCmd ctx (config p) composeFile) (output, None)
         :: trRefresh.
Proof.
  split.
  - intros Hrun. apply Start_runs in Hrun
      as [(_ & _ & [=] & _)
         |(Hinit & trStage & composeFile
           & [(cause & _ & _ & [=] & _)
             |(Hstage & output
               & [(cause & _ & [=] & _)|(trRefresh & Hrefresh & ->)])])].
    split; [done|]. by exists trStage, composeFile, output, trRefresh.
  - intros (Hinit & trStage & composeFile & output & trRefresh
            & Hstage & Hrefresh & ->).
    unfold Start. rewrite Hinit. cbn [negb].
    apply runs_bind. exists (composeFile, None), trStage,
      (ObsCombinedOutput (upCmd ctx (config p) composeFile) (output, None)
       :: trRefresh).
    split; [done|]. split; [|done].
    apply runs_bind. exists (output, None),
      [ObsCombinedOutput (upCmd ctx (config p) composeFile) (output, None)],
      trRefresh.
    split; [by apply runs_trigger|]. done.
Qed.

(** X9. A failed [Start].  When [Start] returns an error the provider is
    as it was before the call and no refresh was run.  The error is
    "provider not initialized", with nothing asked; or the staging error
    behind "failed to generate compose file: ", with only the staging
    asked; or "failed to start containers: " followed by the combined
    output of the subprocess and its error. *)
Theorem Start_failure (ctx : context_Context) (p : DockerComposeProvider)
    tr err p' :
  runs (Start ctx p) tr (Some err, p') →
  p' = p ∧
  ((initialized p = false ∧ tr = [] ∧ err = "provider not initialized") ∨
   (initialized p = true ∧ ∃ composeFile cause,
      runs (generateComposeFile (config p)) tr (composeFile, Some cause) ∧
      err = "failed to generate compose file: " +:+ cause) ∨
   (initialized p = true ∧ ∃ trStage composeFile output cause,
      runs (generateComposeFile (config p)) trStage (composeFile, None) ∧
      tr = trStage
           ++ [ObsCombinedOutput (upCmd ctx (config p) composeFile)
                 (output, Some cause)] ∧
      err = "failed to start containers: " +:+ output
            +:+ ", error: " +:+ cause)).
Proof.
  intros Hrun. apply Start_runs in Hrun
    as [(Hinit & -> & Herr & ->)
       |(Hinit & trStage & composeFile
         & [(cause & Hstage & -> & Herr & ->)
           |(Hstage & output
             & [(cause & -> & Herr & ->)|(trRefresh & Hrefresh & ->)])])].
  all: simplify_eq.
  - split; [done|]. by left.
  - split; [done|]. right; left. split; [done|]. by exists composeFile, cause.
  - split; [done|]. right; right. split; [done|].
    by exists trStage, composeFile, output, cause.
  - by apply updateContainerIDs_runs in Hrefresh as [[=] _].
Qed.

Lemma Stop_runs ctx p tr err p' :
  runs (Stop ctx p) tr (err, p') →
  (initialized p = false ∧ tr = [] ∧
   err = Some "provider not initialized" ∧ p' = p) ∨
  (initialized p = true ∧
   ∃ trStage composeFile,
     (∃ cause,
        runs (generateComposeFile (config p)) trStage (composeFile, Some cause) ∧
        tr = trStage ∧
        err = Some ("failed to generate compose file: " +:+ cause) ∧
        p' = p) ∨
     (runs (generateComposeFile (config p)) trStage (composeFile, None) ∧
      ∃ output,
        (∃ cause,
           tr = trStage
                ++ [ObsCombinedOutput (downCmd ctx (config p) composeFile)
                      (output, Some cause)] ∧
           err = Some ("failed to stop containers: " +:+ output
                        +:+ ", error: " +:+ cause) ∧
           p' = p) ∨
        (tr = trStage
              ++ [ObsCombinedOutput (downCmd ctx (config p) composeFile)
                    (output, None)] ∧
         err = None ∧ p' = set_containers p ∅))).
Proof.
  unfold Stop. destruct (initialized p) eqn:Hinit; cbn [negb].
  - intros Hrun. right. split; [done|].
    apply runs_bind in Hrun as ([composeFile serr] & trStage & tr2 & Hstage & Hrun & ->).
    exists trStage, composeFile. destruct serr as [cause|].
    + left. exists cause. destruct Hrun as [-> [= -> ->]].
      by rewrite app_nil_r.
    + right. split; [done|].
      apply runs_bind in Hrun as ([output derr] & tr3 & tr4 & Hdown & Hrun & ->).
      apply runs_trigger in Hdown as [_ ->].
      exists output. destruct derr as [cause|].
      * left. exists cause. by destruct Hrun as [-> [= -> ->]].
      * right. by destruct Hrun as [-> [= -> ->]].
  - intros [-> [= -> ->]]. by left.
Qed.

(** X10. A failed [Stop].  When [Stop] returns an error the provider,
    and so the cache, is as it was before the call.  The error is
    "provider not initialized", with nothing asked; or the staging error
    behind "failed to generate compose file: ", with only the staging
    asked; or "failed to stop containers: " followed by the combined
    output of the subprocess and its error. *)
Theorem Stop_failure (ctx : context_Context) (p : DockerComposeProvider)
    tr err p' :
  runs (Stop ctx p) tr (Some err, p') →
  p' = p ∧
  ((initialized p = false ∧ tr = [] ∧ err = "provider not initialized") ∨
   (initialized p = true ∧ ∃ composeFile cause,
      runs (generateComposeFile (config p)) tr (composeFile, Some cause) ∧
      err = "failed to generate compose file: " +:+ cause) ∨
   (initialized p = true ∧ ∃ trStage composeFile output cause,
      runs (generateComposeFile (config p)) trStage (composeFile, None) ∧
      tr = trStage
           ++ [ObsCombinedOutput (downCmd ctx (config p) composeFile)
                 (output, Some cause)] ∧
      err = "failed to stop containers: " +:+ output
            +:+ ", error: " +:+ cause)).
Proof.
  intros Hrun. apply Stop_runs in Hrun
    as [(Hinit & -> & Herr & ->)
       |(Hinit & trStage & composeFile
         & [(cause & Hstage & -> & Herr & ->)
           |(Hstage & output
             & [(cause & -> & Herr & ->)|(_ & [=] & _)])])].
  all: simplify_eq.
  - split; [done|]. by left.
  - split; [done|]. right; left. split; [done|]. by exists composeFile, cause.
  - split; [done|]. right; right. split; [done|].
    by exists trStage, composeFile, output, cause.
Qed.

(** ** GetLogs, GetServices and Status *)

Lemma GetLogs_runs ctx serviceName p tr reader err p' :
  runs (GetLogs ctx serviceName p) tr ((reader, err), p') →
  (initialized p = false ∧ tr = [] ∧ p' = p ∧ reader = None ∧
   err = Some "provider not initialized") ∨
  (initialized p = true ∧ Services (config p) !! serviceName = None ∧
   tr = [] ∧ p' = p ∧ reader = None ∧
   err = Some ("service " +:+ serviceName +:+ " not found")) ∨
  (initialized p = true ∧ is_Some (Services (config p) !! serviceName) ∧
   ∃ trRefresh,
     runs (updateContainerIDs ctx p) trRefresh (None, p') ∧
     ((containers p' !! serviceName = None ∧ tr = trRefresh ∧
       reader = None ∧
       err = Some ("container for service " +:+ serviceName
                    +:+ " not found")) ∨
      (∃ containerID output,
         containers p' !! serviceName = Some containerID ∧
         ((∃ cause,
             tr = trRefresh
                  ++ [ObsCombinedOutput (logsCmd ctx containerID)
                        (output, Some cause)] ∧
             reader = None ∧
             err = Some ("failed to get logs: " +:+ cause)) ∨
          (tr = trRefresh
                ++ [ObsCombinedOutput (logsCmd ctx containerID)
                      (output, None)] ∧
           reader = Some output ∧ err = None))))).
Proof.
  unfold GetLogs. destruct (initialized p) eqn:Hinit; cbn [negb].
  - destruct (Services (config p) !! serviceName) as [serviceConfig|] eqn:Hdecl.
    + intros Hrun. right; right. split; [done|]. split; [by eauto|].
      apply runs_bind in Hrun as ([rerr p1] & trRefresh & tr2 & Hrefresh & Hrun & ->).
      destruct (updateContainerIDs_runs _ _ _ _ _ Hrefresh) as [-> _].
      destruct (containers p1 !! serviceName) as [containerID|] eqn:Hcache.
      * apply runs_bind in Hrun as ([output lerr] & tr3 & tr4 & Hlogs & Hrun & ->).
        apply runs_trigger in Hlogs as [_ ->].
        destruct lerr as [cause|]; destruct Hrun as [-> Heq]; simplify_eq;
          exists trRefresh; (split; [done|]); right;
          exists containerID, output; (split; [done|]).
        -- left. by exists cause.
        -- by right.
      * destruct Hrun as [-> Heq]. simplify_eq. exists trRefresh.
        split; [done|]. left. by rewrite app_nil_r.
    + intros [-> Heq]. simplify_eq. right; left. done.
  - intros [-> Heq]. simplify_eq. by left.
Qed.

(** X11. Logs are returned exactly when the provider is initialized, the
    service is declared, the refresh that [GetLogs] runs first finds a
    container for it, and [docker logs] on that container succeeds; the
    reader then holds the combined output of that subprocess as it is,
    not trimmed, and the provider holds the refreshed cache. *)
Theorem GetLogs_success (ctx : context_Context) (serviceName : string)
    (p : DockerComposeProvider) tr output err p' :
  runs (GetLogs ctx serviceName p) tr ((Some output, err), p') →
  err = None ∧
  initialized p = true ∧
  is_Some (Services (config p) !! serviceName) ∧
  ∃ trRefresh containerID,
    runs (updateContainerIDs ctx p) trRefresh (None, p') ∧
    containers p' !! serviceName = Some containerID ∧
    tr = trRefresh
         ++ [ObsCombinedOutput (logsCmd ctx containerID) (output, None)].
Proof.
  intros Hrun. apply GetLogs_runs in Hrun
    as [(_ & _ & _ & [=] & _)
       |[(_ & _ & _ & _ & [=] & _)
        |(Hinit & Hdecl & trRefresh & Hrefresh
          & [(_ & _ & [=] & _)
            |(containerID & output' & Hcache
              & [(cause & _ & [=] & _)|(-> & [= <-] & ->)])])]].
  split; [done|]. split; [done|]. split; [done|].
  by exists trRefresh, containerID.
Qed.

(** X12. A failed [GetLogs].  Before initialization and for an undeclared
    service name [GetLogs] fails at once: nothing is asked and the
    provider, cache included, is as it was, even when the cache holds an
    identifier under that name.  Otherwise the refresh has run and the
    provider holds the refreshed cache although the call failed: either
    no container was found for the service, or [docker logs] failed, and
    then the error carries the cause but not the output. *)
Theorem GetLogs_failure (ctx : context_Context) (serviceName : string)
    (p : DockerComposeProvider) tr reader err p' :
  runs (GetLogs ctx serviceName p) tr ((reader, Some err), p') →
  reader = None ∧
  ((initialized p = false ∧ err = "provider not initialized" ∧
    tr = [] ∧ p' = p) ∨
   (initialized p = true ∧ Services (config p) !! serviceName = None ∧
    err = "service " +:+ serviceName +:+ " not found" ∧
    tr = [] ∧ p' = p) ∨
   (initialized p = true ∧ is_Some (Services (config p) !! serviceName) ∧
    containers p' !! serviceName = None ∧
    err = "container for service " +:+ serviceName +:+ " not found" ∧
    runs (updateContainerIDs ctx p) tr (None, p')) ∨
   (initialized p = true ∧ is_Some (Services (config p) !! serviceName) ∧
    ∃ trRefresh containerID output cause,
      containers p' !! serviceName = Some containerID ∧
      err = "failed to get logs: " +:+ cause ∧
      runs (updateContainerIDs ctx p) trRefresh (None, p') ∧
      tr = trRefresh
           ++ [ObsCombinedOutput (logsCmd ctx containerID)
                 (output, Some cause)])).
Proof.
  intros Hrun. apply GetLogs_runs in Hrun
    as [(Hinit & -> & -> & -> & Herr)
       |[(Hinit & Hdecl & -> & -> & -> & Herr)
        |(Hinit & Hdecl & trRefresh & Hrefresh
          & [(Hcache & -> & -> & Herr)
            |(containerID & output & Hcache
              & [(cause & -> & -> & Herr)|(_ & _ & [=])])])]].
  all: simplify_eq; (split; [done|]).
  - by left.
  - right; left. done.
  - right; right; left. done.
  - right; right; right. split; [done|]. split; [done|].
    by exists trRefresh, containerID, output, cause.
Qed.

Lemma collect_names (names : list string) (services : list string) tr out :
  runs (forEach names (λ services service, Ret (services ++ [service]))
          services) tr out
  ↔ tr = [] ∧ out = services ++ names.
Proof.
  revert services. induction names as [|x names IH]; intros services; simpl.
  - by rewrite app_nil_r.
  - rewrite IH. by rewrite <-app_assoc.
Qed.

Lemma GetServices_runs (p : DockerComposeProvider) tr services p' :
  initialized p = true →
  runs (GetServices p) tr (services, p') →
  ∃ order names,
    order ≡ₚ map_to_list (Services (config p)) ∧
    names = order.*1 ∧
    services = Some names ∧
    NoDup names ∧
    length names = size (Services (config p)) ∧
    (∀ s, s ∈ names ↔ is_Some (Services (config p) !! s)) ∧
    tr = [ObsRangeServices (Services (config p)) order] ∧
    p' = p.
Proof.
  intros Hinit. unfold GetServices. rewrite Hinit. cbn [negb]. intros Hrun.
  apply runs_bind in Hrun as (order & tr1 & tr2 & Hrange & Hrun & ->).
  apply runs_trigger in Hrange as [Hperm ->]. simpl in Hperm.
  apply runs_bind in Hrun as (names & tr3 & tr4 & Hloop & [-> Heq] & ->).
  apply collect_names in Hloop as [-> ->]. simplify_eq.
  exists order, order.*1. repeat split; try done.
  - rewrite Hperm. apply NoDup_fst_map_to_list.
  - by rewrite length_fmap, Hperm, length_map_to_list.
  - by apply declared_in_order.
  - by apply declared_in_order.
Qed.

(** X13. On an initialized provider [GetServices] returns a slice that
    is not nil and lists the declared service names, each exactly once,
    in the order of one [range] over the topology; it starts no
    subprocess, touches no file and leaves the provider as it was. *)
Theorem GetServices_initialized (p : DockerComposeProvider) tr services p' :
  initialized p = true →
  runs (GetServices p) tr (services, p') →
  ∃ order names,
    order ≡ₚ map_to_list (Services (config p)) ∧
    names = order.*1 ∧
    services = Some names ∧
    NoDup names ∧
    length names = size (Services (config p)) ∧
    (∀ s, s ∈ names ↔ is_Some (Services (config p) !! s)) ∧
    tr = [ObsRangeServices (Services (config p)) order] ∧
    p' = p.
Proof. apply GetServices_runs. Qed.

(** X14. The map [Status] returns has an entry for every declared
    service and for nothing else: its keys are the keys of the stored
    topology, and with no service declared it is the empty map, not
    nil. *)
Theorem Status_keys (ctx : context_Context) (p : DockerComposeProvider)
    tr statuses err p' :
  initialized p = true →
  runs (Status ctx p) tr ((statuses, err), p') →
  ∃ st, statuses = Some st ∧ dom st = dom (Services (config p)).
Proof.
  intros Hinit Hrun.
  apply Status_runs in Hrun
    as (st & trRefresh & order & reply & -> & -> & _ & Hperm & _ & Hin & Hout);
    [|done].
  exists st. split; [done|]. apply set_eq. intros s.
  rewrite !elem_of_dom, <-(declared_in_order _ order) by done.
  destruct (decide (s ∈ order.*1)) as [Hs|Hs].
  - rewrite Hin by done. split; [done|]. by eauto.
  - rewrite Hout by done. split; [by intros [? ?]|done].
Qed.

(** ** What every call keeps *)

Lemma call_state ctx op p tr r p' :
  runs (call ctx op p) tr (r, p') →
  config p' = config p ∧
  initialized p' = initialized p ∧
  (cache_nonempty p → cache_nonempty p') ∧
  (initialized p = false → p' = p).
Proof.
  assert (∀ q, cache_nonempty (set_containers q ∅)) as Hempty.
  { intros q s containerID Hs. destruct (lookup_empty_Some (M:=gmap string) s containerID Hs). }
  destruct op as [| | |serviceName|]; unfold call; intros Hrun;
    apply runs_bind in Hrun as (res & tr1 & tr2 & Hop & [-> Heq] & ->);
    simplify_eq.
  - destruct res as [err q]. simpl. apply Start_runs in Hop
      as [(Hinit & _ & _ & ->)
         |(Hinit & trStage & composeFile
           & [(cause & _ & _ & _ & ->)
             |(_ & output
               & [(cause & _ & _ & ->)|(trRefresh & Hrefresh & _)])])];
      try done.
    apply updateContainerIDs_cache in Hrefresh as (? & ? & ? & _).
    repeat split; try done. by rewrite Hinit.
  - destruct res as [err q]. simpl. apply Stop_runs in Hop
      as [(Hinit & _ & _ & ->)
         |(Hinit & trStage & composeFile
           & [(cause & _ & _ & _ & ->)
             |(_ & output & [(cause & _ & _ & ->)|(_ & _ & ->)])])];
      try done.
    repeat split; try done. by rewrite Hinit.
  - destruct res as [[statuses err] q]. simpl.
    destruct (initialized p) eqn:Hinit.
    + apply Status_runs in Hop
        as (_ & trRefresh & _ & _ & _ & _ & Hrefresh & _); [|done].
      apply updateContainerIDs_cache in Hrefresh as (? & ? & ? & _).
      repeat split; try done. congruence.
    + unfold Status in Hop. rewrite Hinit in Hop. cbn [negb] in Hop.
      destruct Hop as [_ Heq]. by simplify_eq.
  - destruct res as [[reader err] q]. simpl. apply GetLogs_runs in Hop
      as [(Hinit & _ & -> & _)
         |[(Hinit & _ & _ & -> & _)
          |(Hinit & _ & trRefresh & Hrefresh & _)]];
      try done.
    apply updateContainerIDs_cache in Hrefresh as (? & ? & ? & _).
    repeat split; try done. by rewrite Hinit.
  - destruct res as [services q]. simpl.
    destruct (initialized p) eqn:Hinit.
    + by apply GetServices_runs in Hop as (_ & _ & _ & _ & _ & _ & _ & _ & _ & ->).
    + unfold GetServices in Hop. rewrite Hinit in Hop. cbn [negb] in Hop.
      destruct Hop as [_ Heq]. by simplify_eq.
Qed.

(** X15. No call of [Start], [Stop], [Status], [GetLogs] or
    [GetServices] changes the stored topology or the flag, however it
    ends; only the cache can change.  So an initialized provider stays
    initialized, and the one way to change the topology is
    [Initialize]. *)
Theorem call_keeps_topology (ctx : context_Context) (op : Op)
    (p : DockerComposeProvider) tr r p' :
  runs (call ctx op p) tr (r, p') →
  config p' = config p ∧ initialized p' = initialized p.
Proof. intros Hrun. by apply call_state in Hrun as (? & ? & _). Qed.

Lemma reachable_state p :
  reachable p →
  cache_nonempty p ∧ (initialized p = false → p = NewDockerComposeProvider).
Proof.
  induction 1 as [|ctx config0 p tr r p' _ [IHc IHn] Hrun
                  |serviceName p tr r p' _ [IHc IHn] Hrun
                  |ctx op p tr r p' _ [IHc IHn] Hrun].
  - split; [|done]. intros s containerID Hs.
    destruct (lookup_empty_Some (M:=gmap string) s containerID Hs).
  - destruct Hrun as [_ Heq]. simplify_eq. split; [|done].
    intros s containerID Hs. by eapply IHc.
  - destruct Hrun as [_ Heq]. by simplify_eq.
  - apply call_state in Hrun as (_ & Hinit & Hcache & Hsame).
    split; [by apply Hcache|]. intros Hfalse. rewrite Hfalse in Hinit.
    rewrite Hsame by done. by apply IHn.
Qed.

(** X16. In every state a provider can reach from
    [NewDockerComposeProvider] by calls of its methods, whatever the
    environment answers, no cached identifier is the empty string.  So
    there [GetContainerID] returns the empty string for a name exactly
    when the cache has no entry for it. *)
Theorem reachable_cache_nonempty (p : DockerComposeProvider) :
  reachable p →
  cache_nonempty p ∧
  ∀ serviceName,
    GetContainerID serviceName p = Ret ("", p)
    ↔ containers p !! serviceName = None.
Proof.
  intros Hreach. apply reachable_state in Hreach as [Hcache _].
  split; [done|]. intros serviceName. unfold GetContainerID.
  destruct (containers p !! serviceName) as [containerID|] eqn:Hs; simpl.
  - split; [|done]. intros [= ->]. by apply Hcache in Hs.
  - done.
Qed.

(** X17. Until [Initialize] is called nothing changes: every reachable
    state whose flag is not set is the provider as created, with the
    zero topology and the empty cache, whatever calls were made. *)
Theorem reachable_uninitialized (p : DockerComposeProvider) :
  reachable p →
  initialized p = false →
  p = NewDockerComposeProvider.
Proof. intros Hreach. by apply reachable_state in Hreach as [_ ?]. Qed.

(** ** What the provider asks of its environment *)

Lemma asks_bind {A B} (P : Event → Prop) (m : IO A) (f : A → IO B) :
  asks P m → (∀ a, asks P (f a)) → asks P (bind m f).
Proof.
  intros Hm Hf. induction m as [x|e k IH]; simpl in *; [done|].
  destruct Hm as [He Hk]. split; [done|]. intros ans. by apply IH.
Qed.

Lemma asks_forEach {A S} (P : Event → Prop) (l : list A)
    (body : S → A → IO S) s :
  (∀ s x, asks P (body s x)) → asks P (forEach l body s).
Proof.
  intros Hbody. revert s. induction l as [|x l IH]; intros s; simpl; [done|].
  apply asks_bind; [done|]. intros s'. apply IH.
Qed.

Lemma asks_no_io {A} (P : Event → Prop) (p : IO A) :
  (∀ e, is_io e = false → P e) → no_io p → asks P p.
Proof.
  intros HP. induction p as [x|e k IH]; simpl; [done|].
  intros [He Hk]. split; [by apply HP|]. intros ans. by apply IH.
Qed.

Lemma asks_runs {A} (P : Event → Prop) (p : IO A) tr a :
  asks P p → runs p tr a → Forall (λ o, P (obs_event o)) tr.
Proof.
  revert tr. induction p as [x|e k IH]; intros tr; simpl.
  - by intros _ [-> _].
  - intros [He Hk] (ans & tr' & _ & -> & Hrun).
    constructor; [by destruct e|]. by eapply IH.
Qed.

Ltac asks_step :=
  match goal with
  | |- asks _ (Ret _) => exact I
  | |- asks _ (trigger _) => split; [|intros; exact I]
  | |- asks _ (bind _ _) => apply asks_bind
  | |- asks _ (forEach _ _ _) => apply asks_forEach
  | |- asks _ (generateComposeContent _) =>
      apply asks_no_io; [by intros []|apply no_io_generateComposeContent]
  | |- asks _ (match ?x with _ => _ end) => destruct x
  | |- ∀ _, _ => intros
  end.

Lemma asks_known_call ctx op p :
  asks (knownEvent ctx (config p)) (call ctx op p).
Proof.
  destruct op; unfold call, Start, Stop, Status, GetLogs, GetServices,
    generateComposeFile, updateContainerIDs, queryContainerID, inspectService;
    repeat asks_step; simpl; try done; unfold knownCmd; eauto 10.
Qed.

(** X18. Whatever a call of [Start], [Stop], [Status], [GetLogs] or
    [GetServices] asks of its environment is of a known shape.  Every
    subprocess is started under the context of the caller and is one of
    five: [docker-compose -p project -f file up -d], [docker-compose -p
    project -f file down], [docker-compose -p project ps -q service],
    [docker inspect --format {{.State.Status}} id] and [docker logs id],
    where project is the project name of the stored topology.  Every
    directory is made by [TempDir] with the empty directory argument and
    the pattern [docker-compose-]; every file is written with mode
    0644. *)
Theorem call_known_events (ctx : context_Context) (op : Op)
    (p : DockerComposeProvider) tr r p' :
  runs (call ctx op p) tr (r, p') →
  Forall (λ o, knownEvent ctx (config p) (obs_event o)) tr.
Proof.
  apply (asks_runs (knownEvent ctx (config p))). apply asks_known_call.
Qed.

Lemma asks_no_fs_call ctx op p :
  op ≠ OpStart → op ≠ OpStop →
  asks (λ e, is_fs e = false) (call ctx op p).
Proof.
  intros Hstart Hstop.
  destruct op; try done; unfold call, Status, GetLogs, GetServices,
    updateContainerIDs, queryContainerID, inspectService;
    repeat asks_step; done.
Qed.

(** X19. Only [Start] and [Stop] touch the file system: no run of
    [Status], [GetLogs] or [GetServices] makes a directory or writes a
    file. *)
Theorem call_no_file_system (ctx : context_Context) (op : Op)
    (p : DockerComposeProvider) tr r p' :
  op ≠ OpStart → op ≠ OpStop →
  runs (call ctx op p) tr (r, p') →
  Forall (λ o, is_fs (obs_event o) = false) tr.
Proof.
  intros Hstart Hstop.
  apply (asks_runs (λ e, is_fs e = false)). by apply asks_no_fs_call.
Qed.

(** ** Start, then GetContainerID *)

Lemma refreshedEntry_Some reply containerID :
  refreshedEntry reply = Some containerID →
  reply = (reply.1, None) ∧ containerID = strings_TrimSpace reply.1.
Proof.
  unfold refreshedEntry. destruct reply as [output [cause|]]; simpl; [done|].
  case_decide; [|done]. by intros [= <-].
Qed.

(** X20. After a successful [Start], every identifier the cache holds,
    and so every non-empty answer of [GetContainerID], belongs to a
    declared service and is the trimmed output of a
    [docker-compose -p project ps -q service] for that very service that
    succeeded during this [Start]. *)
Theorem Start_then_GetContainerID (ctx : context_Context)
    (p : DockerComposeProvider) tr p' serviceName containerID :
  runs (Start ctx p) tr (None, p') →
  GetContainerID serviceName p' = Ret (containerID, p') →
  containerID ≠ "" →
  is_Some (Services (config p) !! serviceName) ∧
  ∃ output,
    ObsCombinedOutput (psCmd ctx (config p) serviceName) (output, None) ∈ tr ∧
    containerID = strings_TrimSpace output.
Proof.
  intros Hrun Hget Hne.
  apply Start_runs in Hrun
    as [(_ & _ & [=] & _)
       |(Hinit & trStage & composeFile
         & [(cause & _ & _ & [=] & _)
           |(Hstage & output
             & [(cause & _ & [=] & _)|(trRefresh & Hrefresh & ->)])])].
  apply updateContainerIDs_refresh in Hrefresh
    as (_ & order & reply & Hperm & -> & _ & _ & Hcache).
  unfold GetContainerID in Hget. injection Hget as Hget.
  specialize (Hcache serviceName).
  destruct (containers p' !! serviceName) as [cached|] eqn:Hs;
    simpl in Hget; [|by subst]. subst cached.
  destruct (Services (config p) !! serviceName) as [serviceConfig|] eqn:Hdecl;
    [|done].
  split; [by eauto|]. symmetry in Hcache.
  apply refreshedEntry_Some in Hcache as [Hreply ->].
  exists (reply serviceName).1. split; [|done].
  rewrite elem_of_app. right. do 2 right. rewrite <-Hreply.
  apply list_elem_of_fmap. exists serviceName. split; [done|].
  apply (declared_in_order (Services (config p)) order); by eauto.
Qed.

(** ** What the text holds and what it ignores *)

Lemma joinLines_app {A} (line : A → string) (l1 l2 : list A) :
  joinLines line (l1 ++ l2) = joinLines line l1 +:+ joinLines line l2.
Proof.
  induction l1 as [|x l1 IH]; simpl; [done|].
  by rewrite IH, string_app_assoc.
Qed.

(** X21. No declared service is left out.  In the text of every run of
    the serializer, each declared service has its own text, name key and
    image line first, as one contiguous piece, for some order of its
    environment. *)
Theorem generateComposeContent_holds_service (config : ComposeConfig)
    tr out err serviceName serviceConfig :
  runs (generateComposeContent config) tr (out, err) →
  Services config !! serviceName = Some serviceConfig →
  ∃ before env after,
    env ≡ₚ map_to_list (Environment serviceConfig) ∧
    out = before +:+ serviceText serviceName serviceConfig env +:+ after.
Proof.
  intros Hrun Hdecl.
  apply generateComposeContent_walk in Hrun as (walk & [Hperm Henvs] & Heq & _).
  injection Heq as -> _.
  assert ((serviceName, serviceConfig) ∈ walk.*1) as Hin.
  { rewrite Hperm. by apply elem_of_map_to_list. }
  apply list_elem_of_fmap in Hin as ([entry env] & Hentry & Hin).
  simpl in Hentry. subst entry.
  apply list_elem_of_split in Hin as (walk1 & walk2 & ->).
  apply Forall_app in Henvs as [_ Henvs].
  apply Forall_cons in Henvs as [Henv _]. simpl in Henv.
  exists (composeHeader +:+ servicesText walk1), env,
    (servicesText walk2 +:+ networksText config).
  split; [done|]. unfold documentText, servicesText.
  rewrite joinLines_app. simpl. by rewrite !string_app_assoc.
Qed.

(** X22. The text depends on the services and the network name only:
    two topologies that differ in the project name or in the env-file
    path alone have the same runs of the serializer, with the same
    texts.  The env-file path is never written. *)
Theorem generateComposeContent_ignores (config1 config2 : ComposeConfig)
    tr r :
  Services config1 = Services config2 →
  Network config1 = Network config2 →
  runs (generateComposeContent config1) tr r ↔
  runs (generateComposeContent config2) tr r.
Proof.
  intros Hservices Hnetwork. rewrite !generateComposeContent_walk.
  unfold walks, documentText, networksText.
  by rewrite Hservices, Hnetwork.
Qed.

(** ** The order of iteration and the text *)

Lemma walkTrace_sorted (R : relation string) (walk : Walk) :
  Forall (λ step, step.2 ≡ₚ map_to_list (Environment step.1.2)) walk →
  Forall (obs_sorted R) (walkTrace walk) →
  Forall (λ step, Sorted R step.2.*1) walk.
Proof.
  unfold walkTrace.
  induction walk as [|[[serviceName serviceConfig] env] walk IH]; simpl;
    intros Henvs Hsorted; [done|].
  apply Forall_cons in Henvs as [Hperm Henvs]. simpl in Hperm.
  apply Forall_app in Hsorted as [Hhere Hsorted].
  constructor; [|by apply IH]. simpl.
  case_decide as Hsize.
  - by apply Forall_cons in Hhere as [Hhere _].
  - apply range_length in Hperm.
    destruct env; [constructor|]. simpl in Hperm. lia.
Qed.

(** C1, as the code has it.  The serializer imposes no order on the
    service names or on the environment keys: its text is decided by the
    topology together with the order in which [range] walks them, and it
    asks for no I/O.  Two runs on the same topology in which [range]
    follows one fixed total order [R] return the same text, with a nil
    error: the version line and the services key, the texts of the
    services in the order of [R], each with its environment lines in the
    order of [R], and the networks block when the network is named. *)
Theorem generateComposeContent_order_decides_text (R : relation string)
    (HR : TotalOrder R) (config : ComposeConfig) tr1 tr2 r1 r2 :
  runs (generateComposeContent config) tr1 r1 →
  runs (generateComposeContent config) tr2 r2 →
  Forall (obs_sorted R) tr1 → Forall (obs_sorted R) tr2 →
  r1 = r2 ∧
  Forall (λ o, obs_is_io o = false) tr1 ∧
  ∃ walk : Walk,
    walks config walk ∧
    Sorted R walk.*1.*1 ∧
    Forall (λ step, Sorted R step.2.*1) walk ∧
    r1 = (documentText config walk, None).
Proof.
  intros Hrun1 Hrun2 Hs1 Hs2. split; [|split].
  - by destruct (runs_sorted_deterministic R (generateComposeContent config)
                   tr1 tr2 r1 r2 (no_io_generateComposeContent config)).
  - eapply no_io_runs; [apply no_io_generateComposeContent|done].
  - apply generateComposeContent_walk in Hrun1 as (walk & Hwalk & -> & ->).
    apply Forall_cons in Hs1 as [Hservices Henvs]. simpl in Hservices.
    exists walk. split; [done|]. split; [done|]. split; [|done].
    destruct Hwalk as [_ Hperms]. by apply (walkTrace_sorted R).
Qed.

End Provider.

Arguments Ret {context_Context A} a.

(** ** The byte-wise order on keys *)

Lemma String_le_total_order : TotalOrder String.le.
Proof.
  split; [apply _|].
  intros x y. destruct (decide (x = y)) as [->|Hne]; [by right; left|].
  destruct (total String.le x y) as [Hxy|Hyx].
  - left. split; [done|]. intros Hyx. by apply Hne, (anti_symm String.le).
  - right; right. split; [done|]. intros Hxy.
    by apply Hne, (anti_symm String.le).
Qed.

(** ** The development at sample data *)

(** The text of [demoConfig] when [range] walks the keys in byte order. *)
Example generateComposeContent_demo :
  (exec unit (scripted unit String.le) [] (generateComposeContent unit demoConfig)).1
  = ("version: " +:+ dq +:+ "3.4" +:+ dq +:+ nl +:+ nl
     +:+ "services:" +:+ nl
     +:+ "  cache:" +:+ nl
     +:+ "    image: redis:7" +:+ nl
     +:+ "    restart: always" +:+ nl
     +:+ "    ports:" +:+ nl
     +:+ "      - " +:+ dq +:+ "6379:6379/tcp" +:+ dq +:+ nl
     +:+ "    volumes:" +:+ nl
     +:+ "      - /var/cache:/data" +:+ nl
     +:+ "    environment:" +:+ nl
     +:+ "      - LOG=quiet" +:+ nl
     +:+ "      - MODE=lru" +:+ nl
     +:+ "    depends_on:" +:+ nl
     +:+ "      - db" +:+ nl
     +:+ "    deploy:" +:+ nl
     +:+ "      resources:" +:+ nl
     +:+ "        limits:" +:+ nl
     +:+ "          memory: 512m" +:+ nl
     +:+ "          cpus: 0.5" +:+ nl
     +:+ "  db:" +:+ nl
     +:+ "    image: postgres:13" +:+ nl
     +:+ "    restart: always" +:+ nl
     +:+ "  web:" +:+ nl
     +:+ "    image: nginx:stable" +:+ nl
     +:+ "    ports:" +:+ nl
     +:+ "      - " +:+ dq +:+ "8080:80/tcp" +:+ dq +:+ nl
     +:+ "    environment:" +:+ nl
     +:+ "      - ENV=production" +:+ nl
     +:+ nl +:+ "networks:" +:+ nl
     +:+ "  appnet:" +:+ nl
     +:+ "    driver: bridge" +:+ nl,
     None).
Proof. vm_compute. reflexivity. Qed.

(** C1, as the claim states it, fails: the serializer is not a function
    of the topology alone.  Walking the keys of [demoConfig] upwards and
    downwards gives two runs on the same topology with different
    texts. *)
Example generateComposeContent_order_matters :
  ∃ tr1 tr2 r1 r2,
    runs unit (generateComposeContent unit demoConfig) tr1 r1 ∧
    runs unit (generateComposeContent unit demoConfig) tr2 r2 ∧
    r1 ≠ r2.
Proof.
  pose (run1 := exec unit (scripted unit String.le) []
                  (generateComposeContent unit demoConfig)).
  pose (run2 := exec unit (scripted unit (flip String.le)) []
                  (generateComposeContent unit demoConfig)).
  exists run1.2, run2.2, run1.1, run2.1.
  split; [apply exec_runs, scripted_admissible|].
  split; [apply exec_runs, scripted_admissible|].
  vm_compute. discriminate.
Qed.

Lemma generateComposeContent_order_decides_text_witness :
  (exec unit (scripted unit String.le) []
     (generateComposeContent unit demoConfig)).1
  = (exec unit (scripted unit String.le) [("late", None)]
       (generateComposeContent unit demoConfig)).1.
Proof.
  refine (proj1 (generateComposeContent_order_decides_text unit String.le
                   String_le_total_order demoConfig _ _ _ _ _ _ _ _)).
  - apply exec_runs, scripted_admissible.
  - apply exec_runs, scripted_admissible.
  - apply scripted_sorted, _.
  - apply scripted_sorted, _.
Defined.

Lemma writeService_minimal_witness :
  writeService unit "" "db" dbService
  = Ret ("  db:" +:+ nl +:+ "    image: postgres:13" +:+ nl
         +:+ "    restart: always" +:+ nl).
Proof.
  exact (writeService_minimal unit "" "db" dbService
           eq_refl eq_refl eq_refl eq_refl eq_refl eq_refl).
Defined.

Lemma generateComposeContent_networks_witness :
  ∃ body,
    (exec unit (scripted unit String.le) []
       (generateComposeContent unit demoConfig)).1.1
    = body +:+ networksBlock "appnet".
Proof.
  pose proof (exec_runs unit (scripted unit String.le) []
                (generateComposeContent unit demoConfig)
                (scripted_admissible unit String.le)) as Hrun.
  destruct (exec unit (scripted unit String.le) []
              (generateComposeContent unit demoConfig)) as [[out err] tr].
  destruct (generateComposeContent_networks unit demoConfig tr out err Hrun)
    as (services & tr' & body & _ & _ & Hnet & _).
  exists body. apply Hnet. discriminate.
Defined.

(** C2, as the claim states it, fails: [GetServices] on a provider that
    was never initialized returns the nil slice and no error. *)
Lemma uninitialized_GetServices_returns_no_error :
  ¬ (∀ (op : Op) (p : DockerComposeProvider),
       initialized p = false →
       ∃ r,
         call unit trimSpaceASCII joinUnix tt op p = Ret (r, p) ∧
         result_error r = Some "provider not initialized").
Proof.
  intros Hall.
  destruct (Hall OpGetServices NewDockerComposeProvider eq_refl)
    as (r & Hcall & Herr).
  injection Hcall as <-. discriminate Herr.
Qed.

Lemma uninitialized_calls_witness :
  Start unit trimSpaceASCII joinUnix tt NewDockerComposeProvider
  = Ret (Some "provider not initialized", NewDockerComposeProvider) ∧
  GetServices unit NewDockerComposeProvider
  = Ret (None, NewDockerComposeProvider).
Proof.
  destruct (uninitialized_calls unit trimSpaceASCII joinUnix tt
              NewDockerComposeProvider eq_refl)
    as (Hstart & _ & _ & _ & Hservices).
  exact (conj Hstart Hservices).
Defined.

Lemma GetContainerID_absent_witness :
  GetContainerID unit "web" NewDockerComposeProvider
  = Ret ("", NewDockerComposeProvider).
Proof.
  exact (GetContainerID_absent unit "web" NewDockerComposeProvider eq_refl).
Defined.

(** Re-initializing [demoProvider] with a topology that declares neither
    "web" nor "db" keeps both identifiers. *)
Example Initialize_keeps_cache_demo :
  ∃ p',
    Initialize unit tt otherConfig demoProvider = Ret (None, p') ∧
    GetContainerID unit "web" p' = Ret ("c0ffee", p') ∧
    GetContainerID unit "db" p' = Ret ("decaf", p') ∧
    Services (config p') !! "web" = None.
Proof. eexists. repeat split. Qed.

(** One run of [Status] on [demoProvider], answered by [statusScript]. *)
Example Status_demo :
  (exec unit (scripted unit String.le) statusScript
     (Status unit trimSpaceASCII tt demoProvider)).1.1
  = (Some {[ "cache" := "not_found"; "db" := "error"; "web" := "running" ]},
     None).
Proof. vm_compute. reflexivity. Qed.

Lemma Status_partial_failure_witness :
  initialized demoProvider = true ∧
  (exec unit (scripted unit String.le) statusScript
     (Status unit trimSpaceASCII tt demoProvider)).1.1.2 = None.
Proof.
  split; [reflexivity|].
  pose proof (exec_runs unit (scripted unit String.le) statusScript
                (Status unit trimSpaceASCII tt demoProvider)
                (scripted_admissible unit String.le)) as Hrun.
  destruct (exec unit (scripted unit String.le) statusScript
              (Status unit trimSpaceASCII tt demoProvider))
    as [[[statuses err] p'] tr].
  exact (proj1 (Status_partial_failure unit trimSpaceASCII tt demoProvider
                  tr statuses err p' eq_refl Hrun)).
Defined.

Lemma Stop_clears_cache_witness :
  GetContainerID unit "web" demoProvider = Ret ("c0ffee", demoProvider) ∧
  ∃ tr p',
    runs unit (Stop unit joinUnix tt demoProvider) tr (None, p') ∧
    GetContainerID unit "web" p' = Ret ("", p').
Proof.
  split; [reflexivity|].
  pose (c := {| cmd_ctx := tt; cmd_name := "docker-compose";
                cmd_args := ["-p"; "demo"; "-f";
                             "/tmp/docker-compose-1/docker-compose.yml";
                             "down"] |}).
  pose proof (exec_runs unit (scripted unit String.le) [("", None)]
                (Stop unit joinUnix tt demoProvider)
                (scripted_admissible unit String.le)) as Hrun.
  assert (ObsCombinedOutput unit c ("", None)
          ∈ (exec unit (scripted unit String.le) [("", None)]
               (Stop unit joinUnix tt demoProvider)).2) as Hin.
  { vm_compute.
    repeat first [ apply list_elem_of_here | apply list_elem_of_further ]. }
  destruct (exec unit (scripted unit String.le) [("", None)]
              (Stop unit joinUnix tt demoProvider)) as [[err p'] tr].
  destruct (Stop_clears_cache unit joinUnix tt demoProvider tr err p' c ""
              eq_refl Hrun Hin) as (_ & -> & _ & Hget).
  exists tr, p'. split; [exact Hrun|apply Hget].
Defined.

Lemma updateContainerIDs_never_fails_witness :
  ∃ tr st p',
    runs unit (Status unit trimSpaceASCII tt demoProvider) tr
      ((Some st, None), p').
Proof.
  destruct (updateContainerIDs_never_fails unit trimSpaceASCII tt demoProvider)
    as (_ & _ & Hstatus).
  exact (proj1 (Hstatus eq_refl)).
Defined.

(** ** The further properties at sample data *)

Lemma writeService_text_witness :
  runs unit (writeService unit "" "db" dbService) []
    ("  db:" +:+ nl +:+ "    image: postgres:13" +:+ nl
     +:+ "    restart: always" +:+ nl).
Proof.
  apply (writeService_text unit "" "db" dbService).
  exists []. split; [reflexivity|]. split; reflexivity.
Defined.

Lemma generateComposeContent_text_witness :
  ∃ walk : Walk,
    walks demoConfig walk ∧
    (exec unit (scripted unit String.le) []
       (generateComposeContent unit demoConfig)).1
    = (documentText demoConfig walk, None).
Proof.
  pose proof (exec_runs unit (scripted unit String.le) []
                (generateComposeContent unit demoConfig)
                (scripted_admissible unit String.le)) as Hrun.
  apply (generateComposeContent_text unit demoConfig) in Hrun
    as (walk & Hwalk & Hr & _).
  exists walk. exact (conj Hwalk Hr).
Defined.

Lemma generateComposeContent_no_services_witness :
  (exec unit (scripted unit String.le) []
     (generateComposeContent unit zeroComposeConfig)).1
  = ("version: " +:+ dq +:+ "3.4" +:+ dq +:+ nl +:+ nl +:+ "services:" +:+ nl,
     None).
Proof.
  exact (proj1 (generateComposeContent_no_services unit zeroComposeConfig _ _
                  eq_refl
                  (exec_runs unit (scripted unit String.le) []
                     (generateComposeContent unit zeroComposeConfig)
                     (scripted_admissible unit String.le)))).
Defined.

Lemma generateComposeContent_single_deterministic_witness :
  (exec unit (scripted unit String.le) []
     (generateComposeContent unit webConfig)).1
  = (exec unit (scripted unit (flip String.le)) []
       (generateComposeContent unit webConfig)).1.
Proof.
  refine (proj1 (generateComposeContent_single_deterministic unit webConfig
                   _ _ _ _ _ _
                   (exec_runs unit (scripted unit String.le) []
                      (generateComposeContent unit webConfig)
                      (scripted_admissible unit String.le))
                   (exec_runs unit (scripted unit (flip String.le)) []
                      (generateComposeContent unit webConfig)
                      (scripted_admissible unit (flip String.le))))).
  - vm_compute. lia.
  - intros serviceName serviceConfig Hdecl.
    unfold webConfig in Hdecl. simpl in Hdecl.
    apply lookup_singleton_Some in Hdecl as [_ <-]. vm_compute. lia.
Defined.

Lemma generateComposeFile_success_witness :
  ∃ tempDir,
    (exec unit (scripted unit String.le) []
       (generateComposeFile unit joinUnix demoConfig)).1.1
    = joinUnix tempDir "docker-compose.yml".
Proof.
  pose proof (exec_runs unit (scripted unit String.le) []
                (generateComposeFile unit joinUnix demoConfig)
                (scripted_admissible unit String.le)) as Hrun.
  destruct (exec unit (scripted unit String.le) []
              (generateComposeFile unit joinUnix demoConfig))
    as [[composeFilePath [cause|]] tr] eqn:Heq;
    [vm_compute in Heq; discriminate Heq|].
  apply (generateComposeFile_success unit joinUnix demoConfig) in Hrun
    as (tempDir & walk & _ & Hpath & _).
  exists tempDir. exact Hpath.
Defined.

Lemma generateComposeFile_failure_witness :
  runs unit (generateComposeFile unit joinUnix demoConfig)
    [ObsTempDir unit "" "docker-compose-" ("", Some "no space left on device")]
    ("", Some "failed to create temp directory: no space left on device").
Proof.
  apply (generateComposeFile_failure unit joinUnix demoConfig).
  split; [reflexivity|]. left.
  exists "", "no space left on device". split; reflexivity.
Defined.

Lemma updateContainerIDs_spec_witness :
  (exec unit (scripted unit String.le) statusScript
     (updateContainerIDs unit trimSpaceASCII tt demoProvider)).1.1 = None.
Proof.
  pose proof (exec_runs unit (scripted unit String.le) statusScript
                (updateContainerIDs unit trimSpaceASCII tt demoProvider)
                (scripted_admissible unit String.le)) as Hrun.
  destruct (exec unit (scripted unit String.le) statusScript
              (updateContainerIDs unit trimSpaceASCII tt demoProvider))
    as [[err p'] tr].
  exact (proj1 (updateContainerIDs_spec unit trimSpaceASCII tt demoProvider
                  tr err p' Hrun)).
Defined.

Lemma Start_success_witness :
  ∃ tr p',
    runs unit (Start unit trimSpaceASCII joinUnix tt demoProvider) tr (None, p') ∧
    initialized demoProvider = true.
Proof.
  pose proof (exec_runs unit (scripted unit String.le)
                (("started", None) :: statusScript)
                (Start unit trimSpaceASCII joinUnix tt demoProvider)
                (scripted_admissible unit String.le)) as Hrun.
  destruct (exec unit (scripted unit String.le)
              (("started", None) :: statusScript)
              (Start unit trimSpaceASCII joinUnix tt demoProvider))
    as [[[cause|] p'] tr] eqn:Heq;
    [vm_compute in Heq; discriminate Heq|].
  exists tr, p'. split; [exact Hrun|].
  exact (proj1 (proj1 (Start_success unit trimSpaceASCII joinUnix tt
                         demoProvider tr p') Hrun)).
Defined.

Lemma Start_failure_witness :
  (exec unit (scripted unit String.le) [("no such image", Some "exit status 1")]
     (Start unit trimSpaceASCII joinUnix tt demoProvider)).1.2
  = demoProvider.
Proof.
  pose proof (exec_runs unit (scripted unit String.le)
                [("no such image", Some "exit status 1")]
                (Start unit trimSpaceASCII joinUnix tt demoProvider)
                (scripted_admissible unit String.le)) as Hrun.
  destruct (exec unit (scripted unit String.le)
              [("no such image", Some "exit status 1")]
              (Start unit trimSpaceASCII joinUnix tt demoProvider))
    as [[[cause|] p'] tr] eqn:Heq;
    [|vm_compute in Heq; discriminate Heq].
  exact (proj1 (Start_failure unit trimSpaceASCII joinUnix tt demoProvider
                  tr cause p' Hrun)).
Defined.

Lemma Stop_failure_witness :
  (exec unit (scripted unit String.le) [("daemon down", Some "exit status 1")]
     (Stop unit joinUnix tt demoProvider)).1.2
  = demoProvider.
Proof.
  pose proof (exec_runs unit (scripted unit String.le)
                [("daemon down", Some "exit status 1")]
                (Stop unit joinUnix tt demoProvider)
                (scripted_admissible unit String.le)) as Hrun.
  destruct (exec unit (scripted unit String.le)
              [("daemon down", Some "exit status 1")]
              (Stop unit joinUnix tt demoProvider))
    as [[[cause|] p'] tr] eqn:Heq;
    [|vm_compute in Heq; discriminate Heq].
  exact (proj1 (Stop_failure unit joinUnix tt demoProvider tr cause p' Hrun)).
Defined.

Lemma GetLogs_success_witness :
  (exec unit (scripted unit String.le)
     [ ("", Some "exit status 1"); ("decaf" +:+ nl, None);
       ("c0ffee" +:+ nl, None); (" GET / 200" +:+ nl, None) ]
     (GetLogs unit trimSpaceASCII tt "web" demoProvider)).1.1
  = (Some (" GET / 200" +:+ nl), None).
Proof.
  pose proof (exec_runs unit (scripted unit String.le)
                [ ("", Some "exit status 1"); ("decaf" +:+ nl, None);
                  ("c0ffee" +:+ nl, None); (" GET / 200" +:+ nl, None) ]
                (GetLogs unit trimSpaceASCII tt "web" demoProvider)
                (scripted_admissible unit String.le)) as Hrun.
  destruct (exec unit (scripted unit String.le)
              [ ("", Some "exit status 1"); ("decaf" +:+ nl, None);
                ("c0ffee" +:+ nl, None); (" GET / 200" +:+ nl, None) ]
              (GetLogs unit trimSpaceASCII tt "web" demoProvider))
    as [[[[output|] err] p'] tr] eqn:Heq;
    [|vm_compute in Heq; discriminate Heq].
  rewrite (proj1 (GetLogs_success unit trimSpaceASCII tt "web" demoProvider
                    tr output err p' Hrun)).
  vm_compute in Heq. injection Heq as <- _ _ _. reflexivity.
Defined.

Lemma GetLogs_failure_witness :
  (exec unit (scripted unit String.le) []
     (GetLogs unit trimSpaceASCII tt "mail" demoProvider)).1
  = ((None, Some "service mail not found"), demoProvider).
Proof.
  pose proof (exec_runs unit (scripted unit String.le) []
                (GetLogs unit trimSpaceASCII tt "mail" demoProvider)
                (scripted_admissible unit String.le)) as Hrun.
  destruct (exec unit (scripted unit String.le) []
              (GetLogs unit trimSpaceASCII tt "mail" demoProvider))
    as [[[reader [cause|]] p'] tr] eqn:Heq;
    [|vm_compute in Heq; discriminate Heq].
  destruct (GetLogs_failure unit trimSpaceASCII tt "mail" demoProvider
              tr reader cause p' Hrun)
    as [-> [(Hinit & _)|[(_ & _ & -> & _ & ->)
                        |[(_ & [serviceConfig Hdecl] & _)
                         |(_ & [serviceConfig Hdecl] & _)]]]].
  - discriminate Hinit.
  - reflexivity.
  - discriminate Hdecl.
  - discriminate Hdecl.
Defined.

Lemma GetServices_initialized_witness :
  ∃ names,
    (exec unit (scripted unit String.le) []
       (GetServices unit demoProvider)).1.1 = Some names ∧
    length names = 3.
Proof.
  pose proof (exec_runs unit (scripted unit String.le) []
                (GetServices unit demoProvider)
                (scripted_admissible unit String.le)) as Hrun.
  destruct (exec unit (scripted unit String.le) []
              (GetServices unit demoProvider)) as [[services p'] tr].
  destruct (GetServices_initialized unit demoProvider tr services p'
              eq_refl Hrun)
    as (order & names & _ & _ & Hservices & _ & Hlength & _).
  exists names. split; [exact Hservices|]. rewrite Hlength. reflexivity.
Defined.

Lemma Status_keys_witness :
  ∃ st,
    (exec unit (scripted unit String.le) statusScript
       (Status unit trimSpaceASCII tt demoProvider)).1.1.1 = Some st ∧
    dom st = dom (Services demoConfig).
Proof.
  pose proof (exec_runs unit (scripted unit String.le) statusScript
                (Status unit trimSpaceASCII tt demoProvider)
                (scripted_admissible unit String.le)) as Hrun.
  destruct (exec unit (scripted unit String.le) statusScript
              (Status unit trimSpaceASCII tt demoProvider))
    as [[[statuses err] p'] tr].
  exact (Status_keys unit trimSpaceASCII tt demoProvider tr statuses err p'
           eq_refl Hrun).
Defined.

Lemma call_keeps_topology_witness :
  config (exec unit (scripted unit String.le) [("", None)]
            (call unit trimSpaceASCII joinUnix tt OpStop demoProvider)).1.2
  = demoConfig.
Proof.
  pose proof (exec_runs unit (scripted unit String.le) [("", None)]
                (call unit trimSpaceASCII joinUnix tt OpStop demoProvider)
                (scripted_admissible unit String.le)) as Hrun.
  destruct (exec unit (scripted unit String.le) [("", None)]
              (call unit trimSpaceASCII joinUnix tt OpStop demoProvider))
    as [[r p'] tr].
  exact (proj1 (call_keeps_topology unit trimSpaceASCII joinUnix tt OpStop
                  demoProvider tr r p' Hrun)).
Defined.

Lemma reachable_cache_nonempty_witness :
  cache_nonempty
    (exec unit (scripted unit String.le) (("started", None) :: statusScript)
       (call unit trimSpaceASCII joinUnix tt OpStart
          {| config := demoConfig; initialized := true; containers := ∅ |})).1.2.
Proof.
  refine (proj1 (reachable_cache_nonempty unit trimSpaceASCII joinUnix _ _)).
  pose proof (exec_runs unit (scripted unit String.le)
                (("started", None) :: statusScript)
                (call unit trimSpaceASCII joinUnix tt OpStart
                   {| config := demoConfig; initialized := true;
                      containers := ∅ |})
                (scripted_admissible unit String.le)) as Hrun.
  destruct (exec unit (scripted unit String.le)
              (("started", None) :: statusScript)
              (call unit trimSpaceASCII joinUnix tt OpStart
                 {| config := demoConfig; initialized := true;
                    containers := ∅ |})) as [[r p'] tr].
  refine (reachable_call unit trimSpaceASCII joinUnix tt OpStart _ tr r p'
            _ Hrun).
  refine (reachable_Initialize unit trimSpaceASCII joinUnix tt demoConfig
            NewDockerComposeProvider [] None _
            (reachable_new unit trimSpaceASCII joinUnix) _).
  split; reflexivity.
Defined.

Lemma reachable_uninitialized_witness :
  (exec unit (scripted unit String.le) []
     (call unit trimSpaceASCII joinUnix tt OpStatus
        NewDockerComposeProvider)).1.2
  = NewDockerComposeProvider.
Proof.
  refine (reachable_uninitialized unit trimSpaceASCII joinUnix _ _ _).
  - pose proof (exec_runs unit (scripted unit String.le) []
                  (call unit trimSpaceASCII joinUnix tt OpStatus
                     NewDockerComposeProvider)
                  (scripted_admissible unit String.le)) as Hrun.
    destruct (exec unit (scripted unit String.le) []
                (call unit trimSpaceASCII joinUnix tt OpStatus
                   NewDockerComposeProvider)) as [[r p'] tr].
    exact (reachable_call unit trimSpaceASCII joinUnix tt OpStatus _ tr r p'
             (reachable_new unit trimSpaceASCII joinUnix) Hrun).
  - vm_compute. reflexivity.
Defined.

Lemma call_known_events_witness :
  Forall (λ o, knownEvent unit tt demoConfig (obs_event unit o))
    (exec unit (scripted unit String.le) (("started", None) :: statusScript)
       (call unit trimSpaceASCII joinUnix tt OpStart demoProvider)).2.
Proof.
  pose proof (exec_runs unit (scripted unit String.le)
                (("started", None) :: statusScript)
                (call unit trimSpaceASCII joinUnix tt OpStart demoProvider)
                (scripted_admissible unit String.le)) as Hrun.
  destruct (exec unit (scripted unit String.le)
              (("started", None) :: statusScript)
              (call unit trimSpaceASCII joinUnix tt OpStart demoProvider))
    as [[r p'] tr].
  exact (call_known_events unit trimSpaceASCII joinUnix tt OpStart
           demoProvider tr r p' Hrun).
Defined.

Lemma call_no_file_system_witness :
  Forall (λ o, is_fs unit (obs_event unit o) = false)
    (exec unit (scripted unit String.le) statusScript
       (call unit trimSpaceASCII joinUnix tt OpStatus demoProvider)).2.
Proof.
  pose proof (exec_runs unit (scripted unit String.le) statusScript
                (call unit trimSpaceASCII joinUnix tt OpStatus demoProvider)
                (scripted_admissible unit String.le)) as Hrun.
  destruct (exec unit (scripted unit String.le) statusScript
              (call unit trimSpaceASCII joinUnix tt OpStatus demoProvider))
    as [[r p'] tr].
  refine (call_no_file_system unit trimSpaceASCII joinUnix tt OpStatus
            demoProvider tr r p' _ _ Hrun); discriminate.
Defined.

Lemma Start_then_GetContainerID_witness :
  ∃ output,
    ObsCombinedOutput unit (psCmd unit tt demoConfig "web") (output, None)
    ∈ (exec unit (scripted unit String.le) (("started", None) :: statusScript)
         (Start unit trimSpaceASCII joinUnix tt demoProvider)).2 ∧
    "c0ffee" = trimSpaceASCII output.
Proof.
  pose proof (exec_runs unit (scripted unit String.le)
                (("started", None) :: statusScript)
                (Start unit trimSpaceASCII joinUnix tt demoProvider)
                (scripted_admissible unit String.le)) as Hrun.
  assert (GetContainerID unit "web"
            (exec unit (scripted unit String.le)
               (("started", None) :: statusScript)
               (Start unit trimSpaceASCII joinUnix tt demoProvider)).1.2
          = Ret ("c0ffee",
                 (exec unit (scripted unit String.le)
                    (("started", None) :: statusScript)
                    (Start unit trimSpaceASCII joinUnix tt demoProvider)).1.2))
    as Hget by (vm_compute; reflexivity).
  destruct (exec unit (scripted unit String.le)
              (("started", None) :: statusScript)
              (Start unit trimSpaceASCII joinUnix tt demoProvider))
    as [[[cause|] p'] tr] eqn:Heq;
    [vm_compute in Heq; discriminate Heq|].
  refine (proj2 (Start_then_GetContainerID unit trimSpaceASCII joinUnix tt
                   demoProvider tr p' "web" "c0ffee" Hrun Hget _)).
  discriminate.
Defined.

Lemma generateComposeContent_holds_service_witness :
  ∃ before env after,
    (exec unit (scripted unit String.le) []
       (generateComposeContent unit demoConfig)).1.1
    = before +:+ serviceText "db" dbService env +:+ after.
Proof.
  pose proof (exec_runs unit (scripted unit String.le) []
                (generateComposeContent unit demoConfig)
                (scripted_admissible unit String.le)) as Hrun.
  destruct (exec unit (scripted unit String.le) []
              (generateComposeContent unit demoConfig)) as [[out err] tr].
  destruct (generateComposeContent_holds_service unit demoConfig tr out err
              "db" dbService Hrun eq_refl)
    as (before & env & after & _ & Hout).
  exists before, env, after. exact Hout.
Defined.

Lemma generateComposeContent_ignores_witness :
  runs unit
    (generateComposeContent unit
       {| Services := Services webConfig; Network := Network webConfig;
          ProjectName := "renamed"; EnvFile := "/etc/site.env" |})
    (exec unit (scripted unit String.le) []
       (generateComposeContent unit webConfig)).2
    (exec unit (scripted unit String.le) []
       (generateComposeContent unit webConfig)).1.
Proof.
  apply (generateComposeContent_ignores unit webConfig _ _ _
           eq_refl eq_refl).
  apply exec_runs, scripted_admissible.
Defined.
